(** * decision-memory: parser, store, index builder and protocol server

    A shallow embedding of [src/store/parser.ts], [src/store/store.ts],
    [src/store/index-builder.ts] and of the two helpers at the end of
    [src/server/server.ts], together with the properties the specification
    states about them.

    Strings.  A JavaScript string is a sequence of UTF-16 code units; the
    embedding uses [string], reading every [ascii] as one code unit in the
    range 0..255 (the Latin-1 part of a JavaScript string).  On that range
    [toLowerCase], the class [\s] and [trim] are per-character and are
    written out below.

    Libraries.  gray-matter, minimatch, [node:path], [Date] and
    [JSON.stringify] are not part of the repository; they are section
    variables of the modules that call them.

    Front matter.  The source names the type of what gray-matter hands over
    and checks nothing.  The modules [Parser], [IndexBuilder] and
    [DecisionStore] read front matter of the declared type; the module
    [Unchecked] reads the parser and [get] again over front matter in which
    any key may be missing.

    Dates.  [new Date(s).getTime()] is [NaN] for a text that is no date,
    and the comparator of the two sorts is then no order.  The sort is
    modelled over numbers; the properties about the order of a result ask
    that the texts sorted be dates ([dated]). *)

From Stdlib Require Import Bool Arith ZArith List Lia.
From Stdlib Require Import Strings.Ascii Strings.String Numbers.DecimalString.
From Stdlib Require Import Sorting.Sorted.
Import ListNotations.

Open Scope string_scope.

(** ** JavaScript string primitives *)

Module Js.

Definition LF : ascii := "010"%char.
Definition nl : string := String LF "".
Definition hyphen : ascii := "-"%char.

Definition code (c : ascii) : nat := nat_of_ascii c.

Definition between (lo hi : nat) (c : ascii) : bool :=
  ((lo <=? code c) && (code c <=? hi))%nat.

(** [[a-z0-9]] *)
Definition is_lower_alnum (c : ascii) : bool :=
  between 97 122 c || between 48 57 c.

(** [[A-Za-z0-9]] *)
Definition is_alnum (c : ascii) : bool :=
  is_lower_alnum c || between 65 90 c.

(** [\s], which is also the set [String.prototype.trim] removes:
    TAB, LF, VT, FF, CR, SP and NBSP. *)
Definition is_space (c : ascii) : bool :=
  between 9 13 c || (code c =? 32)%nat || (code c =? 160)%nat.

(** [String.prototype.toLowerCase] on one code unit: A-Z, and the Latin-1
    capitals U+00C0..U+00DE except the multiplication sign U+00D7. *)
Definition lower_char (c : ascii) : ascii :=
  if between 65 90 c then ascii_of_nat (code c + 32)
  else if between 192 222 c && negb (code c =? 215)%nat then ascii_of_nat (code c + 32)
  else c.

Fixpoint toLowerCase (s : string) : string :=
  match s with
  | "" => ""
  | String c r => String (lower_char c) (toLowerCase r)
  end.

Fixpoint startsWith (s p : string) : bool :=
  match p, s with
  | "", _ => true
  | String _ _, "" => false
  | String a p', String b s' => Ascii.eqb a b && startsWith s' p'
  end.

Fixpoint endsWith (s suffix : string) : bool :=
  String.eqb s suffix ||
  match s with
  | "" => false
  | String _ r => endsWith r suffix
  end.

Fixpoint includes (s sub : string) : bool :=
  startsWith s sub ||
  match s with
  | "" => false
  | String _ r => includes r sub
  end.

(** [s.slice(0, n)] for [0 <= n]. *)
Definition slice0 (n : nat) (s : string) : string := substring 0 n s.

Fixpoint drop (n : nat) (s : string) : string :=
  match n, s with
  | O, _ => s
  | S _, "" => ""
  | S k, String _ r => drop k r
  end.

Fixpoint trimStart (s : string) : string :=
  match s with
  | "" => ""
  | String c r => if is_space c then trimStart r else s
  end.

Fixpoint trimEnd (s : string) : string :=
  match s with
  | "" => ""
  | String c r =>
      match trimEnd r with
      | "" => if is_space c then "" else String c ""
      | r' => String c r'
      end
  end.

Definition trim (s : string) : string := trimEnd (trimStart s).

Fixpoint all_chars (p : ascii -> bool) (s : string) : bool :=
  match s with
  | "" => true
  | String c r => p c && all_chars p r
  end.

(** Template-literal rendering of an integer. *)
Definition string_of_Z (z : Z) : string := NilZero.string_of_int (Z.to_int z).

End Js.

Import Js.

(** ** [src/store/parser.ts]: slugify *)

(** [.replace(/[^a-z0-9]+/g, "-")]: every maximal run of code units outside
    [a-z0-9] becomes one hyphen.  [in_run] records that the hyphen of the
    current run is already written. *)
Fixpoint replace_runs (in_run : bool) (s : string) : string :=
  match s with
  | "" => ""
  | String c r =>
      if is_lower_alnum c then String c (replace_runs false r)
      else if in_run then replace_runs true r
      else String hyphen (replace_runs true r)
  end.

(** [.replace(/-$/g, "")] *)
Fixpoint strip_trailing_hyphen (s : string) : string :=
  match s with
  | "" => ""
  | String c "" => if Ascii.eqb c hyphen then "" else s
  | String c r => String c (strip_trailing_hyphen r)
  end.

Definition strip_leading_hyphen (s : string) : string :=
  match s with
  | String c r => if Ascii.eqb c hyphen then r else s
  | "" => ""
  end.

(** [.replace(/^-|-$/g, "")]: the scan removes a hyphen at index 0, then a
    hyphen at the last index of what is left. *)
Definition strip_edge_hyphens (s : string) : string :=
  strip_trailing_hyphen (strip_leading_hyphen s).

Definition slugify (summary : string) : string :=
  strip_trailing_hyphen
    (slice0 60
       (strip_edge_hyphens
          (replace_runs false
             (toLowerCase summary)))).

(** ** [src/server/server.ts]: slugifyForDisplay *)

Definition slugifyForDisplay (summary : string) : string :=
  slice0 60
    (strip_edge_hyphens
       (replace_runs false
          (toLowerCase summary))).

(** ** [src/store/types.ts] *)

Inductive DecisionStatus := active | superseded | archived.
Inductive DecisionConfidence := explicit | inferred | suggested.
Inductive DecisionSource := conversation | cli | hook | review.

(** An optional field ([updated?: string]) is an [option]; [None] is
    [undefined]. *)
Record Decision := mkDecision {
  id : string;
  summary : string;
  rationale : string;
  scope : list string;
  tags : list string;
  author : string;
  source : DecisionSource;
  confidence : DecisionConfidence;
  status : DecisionStatus;
  created : string;
  updated : option string;
  supersededBy : option string;
  context : option string;
  consequences : option string
}.

Record DecisionFrontmatter := mkFrontmatter {
  fm_id : string;
  fm_summary : string;
  fm_rationale : string;
  fm_scope : list string;
  fm_tags : list string;
  fm_author : string;
  fm_source : DecisionSource;
  fm_confidence : DecisionConfidence;
  fm_status : DecisionStatus;
  fm_created : string;
  fm_updated : option string;
  fm_supersededBy : option string
}.

Record DecisionIndexEntry := mkEntry {
  entry_id : string;
  entry_summary : string;
  entry_scope : list string;
  entry_tags : list string;
  entry_status : DecisionStatus;
  entry_created : string;
  entry_file : string
}.

Record DecisionIndex := mkIndex {
  version : nat;
  index_updated : string;
  decisions : list DecisionIndexEntry
}.

Record QueryOptions := mkOptions {
  opt_status : option DecisionStatus;
  opt_tags : option (list string);
  opt_scope : option string
}.

Definition status_name (s : DecisionStatus) : string :=
  match s with
  | active => "active"
  | superseded => "superseded"
  | archived => "archived"
  end.

Definition status_eqb (a b : DecisionStatus) : bool :=
  match a, b with
  | active, active | superseded, superseded | archived, archived => true
  | _, _ => false
  end.

(** ** Exceptions

    The only exception the store can meet in this model is the one the
    front-matter library raises on a text it cannot parse. *)

Inductive exn := YAMLException.

Inductive result (A : Type) :=
| Return (a : A)
| Raise (e : exn).
Arguments Return {A} a.
Arguments Raise {A} e.

Definition bind {A B} (r : result A) (k : A -> result B) : result B :=
  match r with
  | Return a => k a
  | Raise e => Raise e
  end.

Notation "x <- e ;; k" := (bind e (fun x => k))
  (at level 61, e at next level, right associativity).
Notation "' p <- e ;; k" := (bind e (fun x => match x with p => k end))
  (at level 61, p pattern, e at next level, right associativity).

(** ** [src/store/parser.ts]: parseDecision and serializeDecision *)

(** [const { context, consequences, ...frontmatter } = decision] *)
Definition frontmatter_of (d : Decision) : DecisionFrontmatter :=
  mkFrontmatter (id d) (summary d) (rationale d) (scope d) (tags d) (author d)
    (source d) (confidence d) (status d) (created d) (updated d)
    (supersededBy d).

(** [{ ...fm, context, consequences }] *)
Definition with_body (fm : DecisionFrontmatter)
    (ctx csq : option string) : Decision :=
  mkDecision (fm_id fm) (fm_summary fm) (fm_rationale fm) (fm_scope fm)
    (fm_tags fm) (fm_author fm) (fm_source fm) (fm_confidence fm)
    (fm_status fm) (fm_created fm) (fm_updated fm) (fm_supersededBy fm)
    ctx csq.

Definition is_LF (c : ascii) : bool := Ascii.eqb c LF.

(** [\s*\n] right after a heading.  [\s*] is greedy and gives characters
    back until a line feed follows, so the match ends at the last line feed
    of the maximal run of white space; there is none when the run holds no
    line feed.  The result is the text after the match. *)
Fixpoint skip_space_newline (s : string) : option string :=
  match s with
  | "" => None
  | String c r =>
      if is_space c then
        match skip_space_newline r with
        | Some rest => Some rest
        | None => if is_LF c then Some r else None
        end
      else None
  end.

(** [([\s\S]*?)(?=\n## |\n*$)]: the shortest text after which either
    a line feed and ["## "] follow, or only line feeds up to the end. *)
Fixpoint lazy_until_heading (s : string) : string :=
  if startsWith s (nl ++ "## ") || all_chars is_LF s then ""
  else match s with
       | "" => ""
       | String c r => String c (lazy_until_heading r)
       end.

(** [content.match(/<heading>\s*\n([\s\S]*?)(?=\n## |\n*$)/)]: group 1 of
    the leftmost match, [None] when the expression does not match. *)
Fixpoint match_section (heading content : string) : option string :=
  match (if startsWith content heading
         then skip_space_newline (drop (length heading) content)
         else None) with
  | Some rest => Some (lazy_until_heading rest)
  | None =>
      match content with
      | "" => None
      | String _ r => match_section heading r
      end
  end.

(** JavaScript truthiness of an optional string: [undefined] and [""] are
    falsy. *)
Definition truthy (o : option string) : bool :=
  match o with
  | None | Some "" => false
  | Some _ => true
  end.

Definition section_text (heading : string) (o : option string) : string :=
  match o with
  | Some text =>
      if truthy o then nl ++ heading ++ nl ++ nl ++ text ++ nl else ""
  | None => ""
  end.

(** gray-matter's [newline]: [matter.stringify] ends the body with a line
    feed. *)
Definition ensure_newline (s : string) : string :=
  if endsWith s nl then s else s ++ nl.

Module Parser.

Section WithMatter.

(** gray-matter: [matter(markdown)] gives [{ data, content }] or throws;
    [matter.stringify(body, frontmatter)] gives the document text.  The
    source casts [data] to [DecisionFrontmatter] without a check; the model
    gives it that type, so a text whose front matter has another shape is
    not a value of [matter] here ([Unchecked], below, reads such texts). *)
Variable matter : string -> result (DecisionFrontmatter * string).
Variable matter_stringify : string -> DecisionFrontmatter -> string.

Definition parseDecision (markdown : string) : result Decision :=
  '(fm, content) <- matter markdown ;;
  let ctx := option_map trim (match_section "## Context" content) in
  let csq := option_map trim (match_section "## Consequences" content) in
  Return (with_body fm ctx csq).

Definition serializeDecision (decision : Decision) : string :=
  let body := "" in
  let body := body ++ section_text "## Context" (context decision) in
  let body := body ++ section_text "## Consequences" (consequences decision) in
  matter_stringify body (frontmatter_of decision).

(** What the library is expected to do with a document it wrote itself:
    give back the front matter and the body, ended by a line feed. *)
Definition matter_reads_back (d : Decision) : Prop :=
  let body := section_text "## Context" (context d)
              ++ section_text "## Consequences" (consequences d) in
  matter (matter_stringify body (frontmatter_of d))
  = Return (frontmatter_of d, ensure_newline body).

End WithMatter.

End Parser.

(** ** The decision tree on disk

    The model is rooted at [<projectRoot>/.decisions].  A status directory is
    absent ([None]) or lists its entries in the order [fs.readdir] yields
    them, each with what [fs.readFile] returns for it; entries are regular
    files.  [index_json] is the text of [index.json]. *)

Definition Dir := list (string * string).

Record FS := mkFS {
  dir_active : option Dir;
  dir_superseded : option Dir;
  dir_archived : option Dir;
  index_json : option string
}.

Definition readdir (fs : FS) (st : DecisionStatus) : option Dir :=
  match st with
  | active => dir_active fs
  | superseded => dir_superseded fs
  | archived => dir_archived fs
  end.

Definition set_dir (fs : FS) (st : DecisionStatus) (d : Dir) : FS :=
  match st with
  | active => mkFS (Some d) (dir_superseded fs) (dir_archived fs) (index_json fs)
  | superseded => mkFS (dir_active fs) (Some d) (dir_archived fs) (index_json fs)
  | archived => mkFS (dir_active fs) (dir_superseded fs) (Some d) (index_json fs)
  end.

Definition set_index (fs : FS) (text : string) : FS :=
  mkFS (dir_active fs) (dir_superseded fs) (dir_archived fs) (Some text).

(** [fs.mkdir(dir, { recursive: true })] *)
Definition mkdir (fs : FS) (st : DecisionStatus) : FS :=
  match readdir fs st with
  | Some _ => fs
  | None => set_dir fs st []
  end.

(** A written file replaces the entry of that name, or is a new entry. *)
Fixpoint write_entry (name text : string) (d : Dir) : Dir :=
  match d with
  | [] => [(name, text)]
  | (n, t) :: r =>
      if String.eqb n name then (name, text) :: r
      else (n, t) :: write_entry name text r
  end.

(** [fs.writeFile(path.join(dir, name), text)]; [create] makes the directory
    first, so the write never meets a missing one. *)
Definition writeFile (fs : FS) (st : DecisionStatus) (name text : string) : FS :=
  match readdir fs st with
  | Some d => set_dir fs st (write_entry name text d)
  | None => fs
  end.

Fixpoint lookup_entry (name : string) (d : Dir) : option string :=
  match d with
  | [] => None
  | (n, t) :: r => if String.eqb n name then Some t else lookup_entry name r
  end.

(** [fs.readFile(path.join(dir, name))] *)
Definition readFile (fs : FS) (st : DecisionStatus) (name : string) : option string :=
  match readdir fs st with
  | Some d => lookup_entry name d
  | None => None
  end.

Definition STATUS_DIRS : list DecisionStatus := [active; superseded; archived].

Definition is_md (file : string) : bool := endsWith file ".md".

(** [xs.sort((a, b) => time(b) - time(a))]: stable, latest first. *)
Fixpoint insert_desc {A} (key : A -> Z) (x : A) (l : list A) : list A :=
  match l with
  | [] => [x]
  | y :: r => if (key y <=? key x)%Z then x :: l else y :: insert_desc key x r
  end.

Fixpoint sort_desc {A} (key : A -> Z) (l : list A) : list A :=
  match l with
  | [] => []
  | x :: r => insert_desc key x (sort_desc key r)
  end.

Definition empty_index (now : string) : DecisionIndex := mkIndex 1 now [].

(** ** [src/store/index-builder.ts] *)

Module IndexBuilder.

Section WithLibraries.

Variable matter : string -> result (DecisionFrontmatter * string).
(** [new Date(iso).getTime()] *)
Variable getTime : string -> Z.
(** [JSON.stringify(index, null, 2)] *)
Variable JSON_stringify : DecisionIndex -> string.

Local Abbreviation parseDecision := (Parser.parseDecision matter).

Definition entry_of (st : DecisionStatus) (file : string) (d : Decision)
    : DecisionIndexEntry :=
  mkEntry (id d) (summary d) (scope d) (tags d) (status d) (created d)
    (status_name st ++ "/" ++ file).

(** The inner loop of [rebuildIndex] over one directory listing. *)
Fixpoint index_files (st : DecisionStatus) (files : Dir)
    (entries : list DecisionIndexEntry) : result (list DecisionIndexEntry) :=
  match files with
  | [] => Return entries
  | (file, content) :: rest =>
      if negb (is_md file) then index_files st rest entries
      else
        decision <- parseDecision content ;;
        index_files st rest (entries ++ [entry_of st file decision])
  end.

Fixpoint index_dirs (fs : FS) (dirs : list DecisionStatus)
    (entries : list DecisionIndexEntry) : result (list DecisionIndexEntry) :=
  match dirs with
  | [] => Return entries
  | st :: rest =>
      match readdir fs st with
      | None => index_dirs fs rest entries
      | Some files =>
          entries' <- index_files st files entries ;;
          index_dirs fs rest entries'
      end
  end.

(** [now] is [new Date().toISOString()] at the call.  The result is what
    the call returns or throws, and the tree it leaves. *)
Definition rebuildIndex (now : string) (fs : FS)
    : result DecisionIndex * FS :=
  match index_dirs fs STATUS_DIRS [] with
  | Raise e => (Raise e, fs)
  | Return entries =>
      let index :=
        mkIndex 1 now (sort_desc (fun e => getTime (entry_created e)) entries) in
      (Return index, set_index fs (JSON_stringify index))
  end.

End WithLibraries.

End IndexBuilder.

(** ** [src/store/store.ts] *)

Module DecisionStore.

Section WithLibraries.

Variable matter : string -> result (DecisionFrontmatter * string).
Variable matter_stringify : string -> DecisionFrontmatter -> string.
(** [minimatch(path, pattern)] *)
Variable minimatch : string -> string -> bool.
Variable getTime : string -> Z.
(** [path.isAbsolute(p)] and [path.relative(from, to)] *)
Variable isAbsolute : string -> bool.
Variable relative : string -> string -> string.
Variable JSON_stringify : DecisionIndex -> string.

Local Abbreviation parseDecision := (Parser.parseDecision matter).
Local Abbreviation serializeDecision := (Parser.serializeDecision matter_stringify).

(** [this.rebuildIndex()] *)
Definition rebuildIndex : string -> FS -> result DecisionIndex * FS :=
  IndexBuilder.rebuildIndex matter getTime JSON_stringify.

Definition init (now : string) (fs : FS) : FS :=
  let fs := fold_left mkdir STATUS_DIRS fs in
  match index_json fs with
  | Some _ => fs
  | None => set_index fs (JSON_stringify (empty_index now))
  end.

Definition create (now : string) (decision : Decision) (fs : FS)
    : result Decision * FS :=
  let fs := mkdir fs (status decision) in
  let slug := slugify (summary decision) in
  let filename := slug ++ ".md" in
  let markdown := serializeDecision decision in
  let fs := writeFile fs (status decision) filename markdown in
  match rebuildIndex now fs with
  | (Raise e, fs) => (Raise e, fs)
  | (Return _, fs) => (Return decision, fs)
  end.

(** The inner loop of [get]: the first file of the listing whose decision
    has the wanted id. *)
Fixpoint get_files (wanted : string) (files : Dir) : result (option Decision) :=
  match files with
  | [] => Return None
  | (file, content) :: rest =>
      if negb (is_md file) then get_files wanted rest
      else
        decision <- parseDecision content ;;
        if String.eqb (id decision) wanted then Return (Some decision)
        else get_files wanted rest
  end.

Fixpoint get_dirs (fs : FS) (wanted : string) (dirs : list DecisionStatus)
    : result (option Decision) :=
  match dirs with
  | [] => Return None
  | st :: rest =>
      match readdir fs st with
      | None => get_dirs fs wanted rest
      | Some files =>
          found <- get_files wanted files ;;
          match found with
          | Some decision => Return (Some decision)
          | None => get_dirs fs wanted rest
          end
      end
  end.

Definition get (fs : FS) (wanted : string) : result (option Decision) :=
  get_dirs fs wanted STATUS_DIRS.

(** [options.tags && options.tags.length > 0], then
    [options.tags.some((t) => decision.tags.includes(t))] *)
Definition passes_tags (options : QueryOptions) (decision : Decision) : bool :=
  match opt_tags options with
  | Some (t :: ts) =>
      existsb (fun t => existsb (String.eqb t) (tags decision)) (t :: ts)
  | _ => true
  end.

(** [options.scope], then
    [decision.scope.some((pattern) => minimatch(options.scope, pattern))] *)
Definition passes_scope (options : QueryOptions) (decision : Decision) : bool :=
  if truthy (opt_scope options) then
    match opt_scope options with
    | Some path => existsb (fun pattern => minimatch path pattern) (scope decision)
    | None => true
    end
  else true.

(** The inner loop of [list] over one directory listing. *)
Fixpoint list_files (options : QueryOptions) (files : Dir)
    (results : list Decision) : result (list Decision) :=
  match files with
  | [] => Return results
  | (file, content) :: rest =>
      if negb (is_md file) then list_files options rest results
      else
        decision <- parseDecision content ;;
        if negb (passes_tags options decision) then list_files options rest results
        else if negb (passes_scope options decision) then list_files options rest results
        else list_files options rest (results ++ [decision])
  end.

Fixpoint list_dirs (fs : FS) (options : QueryOptions)
    (dirs : list DecisionStatus) (results : list Decision)
    : result (list Decision) :=
  match dirs with
  | [] => Return results
  | st :: rest =>
      match readdir fs st with
      | None => list_dirs fs options rest results
      | Some files =>
          results' <- list_files options files results ;;
          list_dirs fs options rest results'
      end
  end.

(** [DecisionStore.list]; the name [list] is the type of lists here. *)
Definition list_ (fs : FS) (options : QueryOptions) : result (list Decision) :=
  let statusDirs :=
    match opt_status options with
    | Some st => [st]
    | None => STATUS_DIRS
    end in
  results <- list_dirs fs options statusDirs [] ;;
  Return (sort_desc (fun d => getTime (created d)) results).

(** [root] is [this.root]. *)
Definition queryByFilePath (root : string) (fs : FS) (filePath : string)
    : result (list Decision) :=
  let relativePath :=
    if isAbsolute filePath then relative root filePath else filePath in
  list_ fs (mkOptions (Some active) None (Some relativePath)).

End WithLibraries.

(** The path, from the project root, of the file [create] writes. *)
Definition created_path (decision : Decision) : string :=
  ".decisions/" ++ status_name (status decision) ++ "/"
  ++ slugify (summary decision) ++ ".md".

End DecisionStore.

(** ** The parser and [get] on front matter of any shape

    [parseDecision] names the type of [data] ([data as DecisionFrontmatter])
    and checks nothing, and the library hands over whatever keys the text
    has: none at all for a text without front matter.  In this second
    reading of [parser.ts] and of [get] a key of [data] holds a value of its
    type or is missing ([undefined] when read). *)

Module Unchecked.

Record Data := mkData {
  id : option string;
  summary : option string;
  rationale : option string;
  scope : option (list string);
  tags : option (list string);
  author : option string;
  source : option DecisionSource;
  confidence : option DecisionConfidence;
  status : option DecisionStatus;
  created : option string;
  updated : option string;
  supersededBy : option string
}.

(** [{ ...fm, context, consequences }] *)
Record Parsed := mkParsed {
  data : Data;
  context : option string;
  consequences : option string
}.

Section WithMatter.

Variable matter : string -> result (Data * string).

Definition parseDecision (markdown : string) : result Parsed :=
  '(fm, content) <- matter markdown ;;
  let ctx := option_map trim (match_section "## Context" content) in
  let csq := option_map trim (match_section "## Consequences" content) in
  Return (mkParsed fm ctx csq).

(** [decision.id === id]: a missing key reads [undefined], equal to no
    string. *)
Definition has_id (decision : Parsed) (wanted : string) : bool :=
  match id (data decision) with
  | Some i => String.eqb i wanted
  | None => false
  end.

Fixpoint get_files (wanted : string) (files : Dir) : result (option Parsed) :=
  match files with
  | [] => Return None
  | (file, content) :: rest =>
      if negb (is_md file) then get_files wanted rest
      else
        decision <- parseDecision content ;;
        if has_id decision wanted then Return (Some decision)
        else get_files wanted rest
  end.

Fixpoint get_dirs (fs : FS) (wanted : string) (dirs : list DecisionStatus)
    : result (option Parsed) :=
  match dirs with
  | [] => Return None
  | st :: rest =>
      match readdir fs st with
      | None => get_dirs fs wanted rest
      | Some files =>
          found <- get_files wanted files ;;
          match found with
          | Some decision => Return (Some decision)
          | None => get_dirs fs wanted rest
          end
      end
  end.

Definition get (fs : FS) (wanted : string) : result (option Parsed) :=
  get_dirs fs wanted STATUS_DIRS.

End WithMatter.

(** No key at all: [{}]. *)
Definition no_data : Data :=
  mkData None None None None None None None None None None None None.

(** A front matter of the declared type, as an object with all its keys. *)
Definition data_of (fm : DecisionFrontmatter) : Data :=
  mkData (Some (fm_id fm)) (Some (fm_summary fm)) (Some (fm_rationale fm))
    (Some (fm_scope fm)) (Some (fm_tags fm)) (Some (fm_author fm))
    (Some (fm_source fm)) (Some (fm_confidence fm))
    (Some (fm_status fm)) (Some (fm_created fm))
    (fm_updated fm) (fm_supersededBy fm).

End Unchecked.

(** A decision of the declared type, as [parseDecision] returns it. *)
Definition parsed_of (d : Decision) : Unchecked.Parsed :=
  Unchecked.mkParsed (Unchecked.data_of (frontmatter_of d)) (context d) (consequences d).

(** ** [src/server/server.ts]: getRelativeTime

    [now] is [Date.now()]. *)

Module Server.

Section WithDate.

Variable getTime : string -> Z.

Definition getRelativeTime (now : Z) (iso : string) : string :=
  let diff := (now - getTime iso)%Z in
  let minutes := (diff / 60000)%Z in
  if (minutes <? 1)%Z then "just now"
  else if (minutes <? 60)%Z then string_of_Z minutes ++ "m ago"
  else
    let hours := (minutes / 60)%Z in
    if (hours <? 24)%Z then string_of_Z hours ++ "h ago"
    else
      let days := (hours / 24)%Z in
      if (days <? 7)%Z then string_of_Z days ++ "d ago"
      else
        let weeks := (days / 7)%Z in
        if (weeks <? 4)%Z then string_of_Z weeks ++ "w ago"
        else
          let months := (days / 30)%Z in
          string_of_Z months ++ "mo ago".

End WithDate.

(** The file line of [record_decision]'s confirmation text. *)
Definition confirmation_path (summary : string) : string :=
  ".decisions/active/" ++ slugifyForDisplay summary ++ ".md".

End Server.

(** The relative age as the specification words it, from the elapsed
    minutes. *)
Definition relative_age_spec (minutes : Z) : string :=
  let hours := (minutes / 60)%Z in
  let days := (hours / 24)%Z in
  if (minutes <? 1)%Z then "just now"
  else if (minutes <? 60)%Z then string_of_Z minutes ++ "m ago"
  else if (minutes <? 1440)%Z then string_of_Z hours ++ "h ago"
  else if (minutes <? 10080)%Z then string_of_Z days ++ "d ago"
  else if (minutes <? 40320)%Z then string_of_Z (days / 7) ++ "w ago"
  else string_of_Z (days / 30) ++ "mo ago".

(** ** Instances of the libraries, for concrete runs

    [Codec] reads and writes the decision file format of the specification
    (a front-matter block between [---] lines, one [key: value] per line,
    lists as [  - item] lines) for values that hold no line feed.  It stands
    for gray-matter where a statement is evaluated on a concrete store. *)

Module Codec.

Fixpoint take_line (s : string) : string * string :=
  match s with
  | "" => ("", "")
  | String c r =>
      if is_LF c then ("", r)
      else let (line, rest) := take_line r in (String c line, rest)
  end.

Definition field (key s : string) : result (string * string) :=
  let (line, rest) := take_line s in
  if startsWith line (key ++ ": ")
  then Return (drop (length key + 2) line, rest)
  else Raise YAMLException.

Definition opt_field (key s : string) : option string * string :=
  match field key s with
  | Return (v, rest) => (Some v, rest)
  | Raise _ => (None, s)
  end.

Fixpoint items (fuel : nat) (s : string) : list string * string :=
  match fuel with
  | O => ([], s)
  | S k =>
      let (line, rest) := take_line s in
      if startsWith line "  - "
      then let (l, rest') := items k rest in (drop 4 line :: l, rest')
      else ([], s)
  end.

Definition list_field (key s : string) : result (list string * string) :=
  let (line, rest) := take_line s in
  if String.eqb line (key ++ ": []") then Return ([], rest)
  else if String.eqb line (key ++ ":") then Return (items (length rest) rest)
  else Raise YAMLException.

Definition source_name (s : DecisionSource) : string :=
  match s with
  | conversation => "conversation"
  | cli => "cli"
  | hook => "hook"
  | review => "review"
  end.

Definition confidence_name (c : DecisionConfidence) : string :=
  match c with
  | explicit => "explicit"
  | inferred => "inferred"
  | suggested => "suggested"
  end.

Definition named {A} (name : A -> string) (all : list A) (v : string) : result A :=
  match find (fun a => String.eqb (name a) v) all with
  | Some a => Return a
  | None => Raise YAMLException
  end.

Definition matter (text : string) : result (DecisionFrontmatter * string) :=
  let (open, s) := take_line text in
  if negb (String.eqb open "---") then Raise YAMLException else
  '(v_id, s) <- field "id" s ;;
  '(v_summary, s) <- field "summary" s ;;
  '(v_rationale, s) <- field "rationale" s ;;
  '(v_scope, s) <- list_field "scope" s ;;
  '(v_tags, s) <- list_field "tags" s ;;
  '(v_author, s) <- field "author" s ;;
  '(v_source, s) <- field "source" s ;;
  v_source <- named source_name [conversation; cli; hook; review] v_source ;;
  '(v_confidence, s) <- field "confidence" s ;;
  v_confidence <- named confidence_name [explicit; inferred; suggested] v_confidence ;;
  '(v_status, s) <- field "status" s ;;
  v_status <- named status_name STATUS_DIRS v_status ;;
  '(v_created, s) <- field "created" s ;;
  let (v_updated, s) := opt_field "updated" s in
  let (v_supersededBy, s) := opt_field "supersededBy" s in
  let (close, content) := take_line s in
  if negb (String.eqb close "---") then Raise YAMLException else
  Return (mkFrontmatter v_id v_summary v_rationale v_scope v_tags v_author
            v_source v_confidence v_status v_created v_updated v_supersededBy,
          content).

Definition line (key value : string) : string := key ++ ": " ++ value ++ nl.

Definition opt_line (key : string) (value : option string) : string :=
  match value with
  | Some v => line key v
  | None => ""
  end.

Definition list_lines (key : string) (values : list string) : string :=
  match values with
  | [] => key ++ ": []" ++ nl
  | _ => key ++ ":" ++ nl ++ String.concat "" (map (fun v => "  - " ++ v ++ nl) values)
  end.

Definition stringify (body : string) (fm : DecisionFrontmatter) : string :=
  "---" ++ nl
  ++ line "id" (fm_id fm)
  ++ line "summary" (fm_summary fm)
  ++ line "rationale" (fm_rationale fm)
  ++ list_lines "scope" (fm_scope fm)
  ++ list_lines "tags" (fm_tags fm)
  ++ line "author" (fm_author fm)
  ++ line "source" (source_name (fm_source fm))
  ++ line "confidence" (confidence_name (fm_confidence fm))
  ++ line "status" (status_name (fm_status fm))
  ++ line "created" (fm_created fm)
  ++ opt_line "updated" (fm_updated fm)
  ++ opt_line "supersededBy" (fm_supersededBy fm)
  ++ "---" ++ nl
  ++ ensure_newline body.

End Codec.

(** [path.posix.isAbsolute] *)
Definition posix_isAbsolute (p : string) : bool := startsWith p "/".

(** [path.posix.relative(from, to)] for a normalized [to] that is [from] or
    lies below it. *)
Definition relative_below (from to : string) : string :=
  if String.eqb to from then "" else drop (length from + 1) to.

(** A matcher for patterns without wildcards. *)
Definition literal_match (path pattern : string) : bool := String.eqb path pattern.

(** The digits of a time stamp read as one number: it orders UTC stamps of
    one format as their dates do. *)
Fixpoint digits_value (acc : Z) (s : string) : Z :=
  match s with
  | "" => acc
  | String c r =>
      if between 48 57 c
      then digits_value (10 * acc + Z.of_nat (code c - 48)) r
      else digits_value acc r
  end.

Definition stamp_time (iso : string) : Z := digits_value 0 iso.

(** The shape of a text, [d] standing for a digit and any other character
    for itself. *)
Fixpoint has_shape (shape s : string) : bool :=
  match shape, s with
  | "", "" => true
  | String p shape', String c s' =>
      (if Ascii.eqb p "d"%char then between 48 57 c else Ascii.eqb p c)
      && has_shape shape' s'
  | _, _ => false
  end.

(** A date reader for the stamps of the tests; any other text is no date. *)
Definition stamp_date (iso : string) : option Z :=
  if has_shape "dddd-dd-ddTdd:dd:ddZ" iso then Some (stamp_time iso) else None.

(** An index rendering that keeps the ids, one per line. *)
Definition ids_text (index : DecisionIndex) : string :=
  String.concat nl (map entry_id (decisions index)).

(** ** Sample data, after [makeDecision] of [src/store/store.test.ts] *)

Definition sample : Decision :=
  mkDecision "dec_20260212_test01" "Use PostgreSQL for persistence"
    "ACID compliance, JSON support, mature ecosystem"
    ["src/db/**/*.ts"; "src/models/**/*.ts"] ["database"; "persistence"]
    "rheapatel" conversation explicit active "2026-02-12T09:30:00Z" None None
    (Some "Evaluating database options for the backend.")
    (Some "All persistence goes through PostgreSQL.").

Definition with_context (d : Decision) (c : option string) : Decision :=
  mkDecision (id d) (summary d) (rationale d) (scope d) (tags d) (author d)
    (source d) (confidence d) (status d) (created d) (updated d)
    (supersededBy d) c (consequences d).

Definition with_scope (d : Decision) (s : list string) : Decision :=
  mkDecision (id d) (summary d) (rationale d) s (tags d) (author d)
    (source d) (confidence d) (status d) (created d) (updated d)
    (supersededBy d) (context d) (consequences d).

Definition with_status (d : Decision) (id' : string) (s : DecisionStatus) : Decision :=
  mkDecision id' (summary d) (rationale d) (scope d) (tags d) (author d)
    (source d) (confidence d) s (created d) (updated d)
    (supersededBy d) (context d) (consequences d).

Definition with_summary (d : Decision) (s : string) : Decision :=
  mkDecision (id d) s (rationale d) (scope d) (tags d) (author d)
    (source d) (confidence d) (status d) (created d) (updated d)
    (supersededBy d) (context d) (consequences d).

(** A summary whose slug has a hyphen as 60th character before the last
    step of [slugify]. *)
Definition hidden_hyphen : string :=
  "Keep every database migration backwards compatible for each release".

(** A context with two leading blanks. *)
Definition indented : Decision := with_context sample (Some "  Indented note.").

(** A store right after [init]. *)
Definition fresh : FS := mkFS (Some []) (Some []) (Some []) (Some "{}").

Definition no_tree : FS := mkFS None None None None.

(** One id in two directories: the sample, and an archived copy of it with
    another rationale. *)
Definition archived_twin : Decision :=
  mkDecision (id sample) "Use SQLite for persistence" "Single file, no server"
    (scope sample) (tags sample) (author sample) (source sample)
    (confidence sample) archived (created sample) None None None None.

Definition twin_store : FS :=
  mkFS (Some [("use-postgresql-for-persistence.md", Parser.serializeDecision Codec.stringify sample)])
       (Some [])
       (Some [("use-sqlite-for-persistence.md", Parser.serializeDecision Codec.stringify archived_twin)])
       (Some "{}").

(** A second decision, after the tests, alone in a store. *)
Definition redis : Decision :=
  mkDecision "dec_20260212_test02" "Use Redis for caching"
    "ACID compliance, JSON support, mature ecosystem"
    ["src/cache/**/*.ts"] ["caching"]
    "rheapatel" conversation explicit active "2026-02-12T09:30:00Z" None None
    None None.

Definition redis_file : string * string :=
  ("use-redis-for-caching.md", Parser.serializeDecision Codec.stringify redis).

Definition redis_store : FS := mkFS (Some [redis_file]) (Some []) (Some []) (Some "{}").

(** The sample with an empty scope, alone in a store. *)
Definition unscoped : Decision := with_scope sample [].

Definition unscoped_store : FS :=
  mkFS (Some [("use-postgresql-for-persistence.md",
               Parser.serializeDecision Codec.stringify unscoped)])
       (Some []) (Some []) (Some "{}").

(** A text the front-matter parser rejects: an unclosed flow sequence. *)
Definition broken_text : string := "---" ++ nl ++ "id: [" ++ nl ++ "---" ++ nl.

Definition broken_store : FS :=
  mkFS (Some [("use-postgresql-for-persistence.md", Parser.serializeDecision Codec.stringify sample);
              ("broken.md", broken_text)])
       (Some []) (Some []) (Some "{}").

(** The front-matter library on a text that does not open with the [---]
    delimiter: no data, and the whole text as content.  A text that opens
    with it goes to the reference codec. *)
Definition matter_any (text : string) : result (Unchecked.Data * string) :=
  if startsWith text "---" then
    '(fm, content) <- Codec.matter text ;;
    Return (Unchecked.data_of fm, content)
  else Return (Unchecked.no_data, text).

(** A file of notes before the sample in [active]. *)
Definition notes_store : FS :=
  mkFS (Some [("notes.md", "corrupted!");
              ("use-postgresql-for-persistence.md", Parser.serializeDecision Codec.stringify sample)])
       (Some []) (Some []) (Some "{}").

(** ** Predicates of the specification *)

(** The listing of a status directory, empty when the directory is absent. *)
Definition listing (fs : FS) (st : DecisionStatus) : Dir :=
  match readdir fs st with
  | Some files => files
  | None => []
  end.

(** Every entry in the order a scan of the three directories meets it. *)
Definition scan_order (fs : FS) : Dir :=
  (listing fs active ++ listing fs superseded ++ listing fs archived)%list.

(** The place of a status directory in the scan. *)
Definition rank (st : DecisionStatus) : nat :=
  match st with
  | active => 0
  | superseded => 1
  | archived => 2
  end.

(** A lower-case letter, a digit or a hyphen. *)
Definition slug_char (c : ascii) : bool := is_lower_alnum c || Ascii.eqb c hyphen.

(** Slug characters only, and no hyphen right after a hyphen. *)
Fixpoint kebab (s : string) : bool :=
  match s with
  | "" => true
  | String c r =>
      (is_lower_alnum c || (Ascii.eqb c hyphen && negb (startsWith r "-")))
      && kebab r
  end.

(** How many entries of an index carry an id. *)
Definition count_id (wanted : string) (entries : list DecisionIndexEntry) : nat :=
  List.length (filter (fun e => String.eqb (entry_id e) wanted) entries).

(** A text that is not empty, has no white space at either end and no line
    that starts a second-level heading after its first line. *)
Definition clean_text (s : string) : Prop :=
  s <> "" /\ trim s = s /\ includes s (nl ++ "## ") = false.

(** The optional texts of a decision the parser reads back as they are:
    clean, no ["## Consequences"] inside the context, and no ["## Context"]
    inside the consequences of a decision without context. *)
Definition roundtrip_safe (d : Decision) : Prop :=
  (forall c, context d = Some c ->
     clean_text c /\ includes c "## Consequences" = false)
  /\ (forall q, consequences d = Some q ->
       clean_text q /\ (context d = None -> includes q "## Context" = false)).


(** The decisions a [list] call keeps: those that pass both of its
    filters. *)
Definition passes (minimatch : string -> string -> bool)
    (options : QueryOptions) (d : Decision) : bool :=
  DecisionStore.passes_tags options d && DecisionStore.passes_scope minimatch options d.

(** The options of a [list] call with its two filters taken away. *)
Definition unfiltered (options : QueryOptions) : QueryOptions :=
  mkOptions (opt_status options) None None.

(** Latest first. *)
Definition latest_first {A} (key : A -> Z) (l : list A) : Prop :=
  StronglySorted (fun a b => (key b <= key a)%Z) l.

(** [new Date(iso).getTime()] is a number of milliseconds, or [NaN] when
    the text is no date: [parseDate] gives [None] there.  [time_of] is the
    number the sort and the ages are computed from: on a date, the
    source's.  The comparator of the sort is an order only on dates, and
    the properties below that depend on the order ask for dates. *)
Definition time_of (parseDate : string -> option Z) (iso : string) : Z :=
  match parseDate iso with
  | Some t => t
  | None => 0%Z
  end.

(** Every element of the list carries a date. *)
Definition dated {A} (parseDate : string -> option Z) (stamp : A -> string)
    (l : list A) : Prop :=
  forall x, In x l -> parseDate (stamp x) <> None.

(** Every [.md] file of a listing parses, to a decision with another id. *)
Definition other_ids (matter : string -> result (DecisionFrontmatter * string))
    (wanted : string) (files : Dir) : Prop :=
  forall name text, In (name, text) files -> is_md name = true ->
  exists d, Parser.parseDecision matter text = Return d /\ id d <> wanted.

(** The [.md] entries of a listing. *)
Definition md_files (files : Dir) : Dir := filter (fun f => is_md (fst f)) files.

(** ** More JavaScript text primitives *)

Module Text.

(** [s.split(",")]: the pieces between the commas, [[""]] for [""]. *)
Fixpoint split_comma (s : string) : list string :=
  match s with
  | "" => [""]
  | String c r =>
      if Ascii.eqb c ","%char then "" :: split_comma r
      else match split_comma r with
           | [] => [String c ""]
           | piece :: pieces => String c piece :: pieces
           end
  end.

(** [xs.join(sep)] *)
Definition join (sep : string) (xs : list string) : string := String.concat sep xs.

(** [s.replace(/-/g, "")] *)
Fixpoint remove_hyphens (s : string) : string :=
  match s with
  | "" => ""
  | String c r =>
      if Ascii.eqb c hyphen then remove_hyphens r else String c (remove_hyphens r)
  end.

(** [`${xs.length}`] *)
Definition length_text {A} (xs : list A) : string :=
  string_of_Z (Z.of_nat (List.length xs)).

End Text.

(** ** [src/cli.ts] and [src/server/server.ts]: recording a decision *)

(** [`dec_${dateStr}_${short}`] with
    [dateStr = now.toISOString().slice(0, 10).replace(/-/g, "")]; [iso] is
    [now.toISOString()] and [short] is [nanoid(6)]. *)
Definition new_id (iso short : string) : string :=
  "dec_" ++ Text.remove_hyphens (slice0 10 iso) ++ "_" ++ short.

Module Cli.

(** [text.split(",").map((s) => s.trim())] *)
Definition parse_list (text : string) : list string :=
  map trim (Text.split_comma text).

(** The options of [record] after commander has filled in the defaults
    ([tags] [""], [author] ["cli-user"], [confidence] ["explicit"]).  The
    source casts [confidence] to its type without a check; the model takes
    it typed. *)
Record RecordOptions := mkRecordOptions {
  o_summary : string;
  o_rationale : string;
  o_scope : string;
  o_tags : string;
  o_author : string;
  o_confidence : DecisionConfidence;
  o_context : option string;
  o_consequences : option string
}.

Definition o_tags_empty (opts : RecordOptions) : bool := String.eqb (o_tags opts) "".

(** The decision [record] builds; [iso] is [now.toISOString()], [short] is
    [nanoid(6)]. *)
Definition decision_of (iso short : string) (opts : RecordOptions) : Decision :=
  mkDecision (new_id iso short) (o_summary opts) (o_rationale opts)
    (parse_list (o_scope opts))
    (if truthy (Some (o_tags opts)) then parse_list (o_tags opts) else [])
    (o_author opts) cli (o_confidence opts) active iso None None
    (o_context opts) (o_consequences opts).

(** The options [list] hands to the store: [opts.tags?.split(",").map(...)].
    The source casts [status] to its type without a check; the model takes
    it typed. *)
Definition list_options (status : option DecisionStatus) (tags : option string)
    : QueryOptions :=
  mkOptions status (option_map parse_list tags) None.

Section WithLibraries.

Variable matter : string -> result (DecisionFrontmatter * string).
Variable matter_stringify : string -> DecisionFrontmatter -> string.
Variable getTime : string -> Z.
Variable JSON_stringify : DecisionIndex -> string.

(** The action of [record]: what it prints, or the exception, and the tree
    it leaves.  [init_time], [iso] and [index_time] are the three readings
    of the clock, in [init], in the action and in [rebuildIndex]. *)
Definition record (init_time iso index_time short : string)
    (opts : RecordOptions) (fs : FS) : result string * FS :=
  let fs := DecisionStore.init JSON_stringify init_time fs in
  let decision := decision_of iso short opts in
  match DecisionStore.create matter matter_stringify getTime JSON_stringify
          index_time decision fs with
  | (Raise e, fs) => (Raise e, fs)
  | (Return _, fs) =>
      (Return ("Decision recorded: " ++ summary decision ++ nl
               ++ "ID: " ++ id decision ++ nl), fs)
  end.

End WithLibraries.

End Cli.

(** ** [src/server/server.ts]: the tools *)

Module Tools.

(** The arguments of [record_decision] after validation has filled in the
    defaults ([author] ["claude"], [confidence] ["explicit"]). *)
Record RecordArgs := mkRecordArgs {
  a_summary : string;
  a_rationale : string;
  a_scope : list string;
  a_tags : list string;
  a_author : string;
  a_context : option string;
  a_consequences : option string;
  a_confidence : DecisionConfidence
}.

Definition decision_of (iso short : string) (args : RecordArgs) : Decision :=
  mkDecision (new_id iso short) (a_summary args) (a_rationale args)
    (a_scope args) (a_tags args) (a_author args) conversation
    (a_confidence args) active iso None None
    (a_context args) (a_consequences args).

(** The text of [get_decision] for a decision that was found. *)
Definition render_decision (decision : Decision) : string :=
  let text := "# " ++ summary decision ++ nl ++ nl in
  let text := text ++ "- **ID**: " ++ id decision ++ nl in
  let text := text ++ "- **Status**: " ++ status_name (status decision) ++ nl in
  let text := text ++ "- **Author**: " ++ author decision ++ nl in
  let text := text ++ "- **Created**: " ++ created decision ++ nl in
  let text := text ++ "- **Confidence**: "
                   ++ Codec.confidence_name (confidence decision) ++ nl in
  let text := text ++ "- **Source**: " ++ Codec.source_name (source decision) ++ nl in
  let text := text ++ "- **Scope**: " ++ Text.join ", " (scope decision) ++ nl in
  let text := text ++ "- **Tags**: " ++ Text.join ", " (tags decision) ++ nl in
  let text := text ++ "- **Rationale**: " ++ rationale decision ++ nl in
  let text := text ++ section_text "## Context" (context decision) in
  let text := text ++ section_text "## Consequences" (consequences decision) in
  let text :=
    text ++ match supersededBy decision with
            | Some by_id =>
                if truthy (Some by_id)
                then nl ++ "*Superseded by: " ++ by_id ++ "*" ++ nl
                else ""
            | None => ""
            end in
  text.

Section WithLibraries.

Variable matter : string -> result (DecisionFrontmatter * string).
Variable matter_stringify : string -> DecisionFrontmatter -> string.
Variable minimatch : string -> string -> bool.
Variable getTime : string -> Z.
Variable isAbsolute : string -> bool.
Variable relative : string -> string -> string.
Variable JSON_stringify : DecisionIndex -> string.

(** One entry of the answer of [query_decisions]; [now] is [Date.now()]. *)
Definition query_entry (now : Z) (d : Decision) : string :=
  let age := Server.getRelativeTime getTime now (created d) in
  "- **" ++ summary d ++ "** (" ++ age ++ ")" ++ nl
  ++ "  Rationale: " ++ rationale d ++ nl
  ++ "  Scope: " ++ Text.join ", " (scope d) ++ nl
  ++ "  Tags: " ++ Text.join ", " (tags d) ++ nl
  ++ "  ID: " ++ id d.

(** Each tool gives the text of its answer, or the exception, and the tree
    it leaves.  [root] is the project root, [init_time] the clock read by
    [init]. *)
Definition query_decisions (root init_time : string) (now : Z)
    (file_path : option string) (tags : option (list string)) (fs : FS)
    : result string * FS :=
  let fs := DecisionStore.init JSON_stringify init_time fs in
  let decisions :=
    match file_path with
    | Some path =>
        if truthy file_path
        then DecisionStore.queryByFilePath matter minimatch getTime isAbsolute
               relative root fs path
        else DecisionStore.list_ matter minimatch getTime fs
               (mkOptions (Some active) tags None)
    | None =>
        DecisionStore.list_ matter minimatch getTime fs
          (mkOptions (Some active) tags None)
    end in
  match decisions with
  | Raise e => (Raise e, fs)
  | Return [] => (Return "No relevant decisions found.", fs)
  | Return decisions =>
      let summaries := map (query_entry now) decisions in
      (Return ("Found " ++ Text.length_text decisions ++ " relevant decision(s):"
               ++ nl ++ nl ++ Text.join (nl ++ nl) summaries), fs)
  end.

Definition record_decision (init_time iso index_time short : string)
    (args : RecordArgs) (fs : FS) : result string * FS :=
  let fs := DecisionStore.init JSON_stringify init_time fs in
  let decision := decision_of iso short args in
  match DecisionStore.create matter matter_stringify getTime JSON_stringify
          index_time decision fs with
  | (Raise e, fs) => (Raise e, fs)
  | (Return _, fs) =>
      (Return ("Decision recorded: **" ++ a_summary args ++ "**" ++ nl
               ++ "ID: " ++ id decision ++ nl
               ++ "File: " ++ Server.confirmation_path (a_summary args)), fs)
  end.

Definition get_decision (init_time wanted : string) (fs : FS)
    : result string * FS :=
  let fs := DecisionStore.init JSON_stringify init_time fs in
  match DecisionStore.get matter fs wanted with
  | Raise e => (Raise e, fs)
  | Return None => (Return ("Decision not found: " ++ wanted), fs)
  | Return (Some decision) => (Return (render_decision decision), fs)
  end.

End WithLibraries.

End Tools.

(** Every [.md] file of a listing parses. *)
Definition all_parse (matter : string -> result (DecisionFrontmatter * string))
    (files : Dir) : Prop :=
  forall name text, In (name, text) files -> is_md name = true ->
  exists d, Parser.parseDecision matter text = Return d.

(** The arguments of the protocol test, and a CLI call after the README. *)
Definition tailwind_args : Tools.RecordArgs :=
  Tools.mkRecordArgs "Use Tailwind CSS" "Utility classes, no custom CSS"
    ["src/components/**/*.tsx"] ["styling"] "claude" None None explicit.

Definition postgres_options : Cli.RecordOptions :=
  Cli.mkRecordOptions "Use PostgreSQL" "ACID" "src/db/**/*.ts, src/models/**/*.ts"
    "" "cli-user" explicit None None.

(** An older decision, after the tests, and a store that lists it before
    the sample. *)
Definition older : Decision :=
  mkDecision "dec_old" "Old decision" (rationale sample) (scope sample)
    (tags sample) (author sample) conversation explicit active
    "2026-01-01T00:00:00Z" None None None None.

Definition dated_store : FS :=
  mkFS (Some [("old-decision.md", Parser.serializeDecision Codec.stringify older);
              ("use-postgresql-for-persistence.md",
               Parser.serializeDecision Codec.stringify sample)])
       (Some []) (Some []) (Some "{}").

(** The sample under another id, and the sample for one file. *)
Definition sample_again : Decision := with_status sample "dec_20260212_again" active.

Definition one_file : Decision := with_scope sample ["src/api/users.ts"].

(** A document with the consequences before the context. *)
Definition swapped_text : string :=
  Codec.stringify
    (nl ++ "## Consequences" ++ nl ++ nl ++ "All persistence goes through PostgreSQL." ++ nl
     ++ nl ++ "## Context" ++ nl ++ nl ++ "Evaluating database options for the backend." ++ nl)
    (frontmatter_of sample).

(** * Properties *)

(** ** Strings *)

Local Arguments Ascii.eqb : simpl never.
Local Arguments String.eqb : simpl nomatch.

Lemma startsWith_nil s : startsWith s "" = true.
Proof. destruct s; reflexivity. Qed.

Lemma startsWith_hyphen c r :
  startsWith (String c r) "-" = Ascii.eqb c hyphen.
Proof.
  cbn [startsWith]. rewrite startsWith_nil, andb_true_r. apply Ascii.eqb_sym.
Qed.

Lemma hyphen_not_alnum c : is_lower_alnum c = true -> Ascii.eqb c hyphen = false.
Proof.
  intros H. destruct (Ascii.eqb_spec c hyphen) as [->|]; [discriminate H | reflexivity].
Qed.

(** ** Slugs *)

Lemma replace_runs_in_run s : startsWith (replace_runs true s) "-" = false.
Proof.
  induction s as [|c r IH]; [reflexivity|].
  cbn [replace_runs]. destruct (is_lower_alnum c) eqn:E; [|exact IH].
  rewrite startsWith_hyphen. now apply hyphen_not_alnum.
Qed.

Lemma replace_runs_kebab s : forall b, kebab (replace_runs b s) = true.
Proof.
  induction s as [|c r IH]; intros b; [reflexivity|].
  cbn [replace_runs]. destruct (is_lower_alnum c) eqn:E.
  - cbn [kebab]. rewrite E. apply IH.
  - destruct b; [apply IH|].
    cbn [kebab]. rewrite replace_runs_in_run, IH. reflexivity.
Qed.

Lemma kebab_tail c r : kebab (String c r) = true -> kebab r = true.
Proof. cbn [kebab]. intros H. now apply andb_prop in H. Qed.

Lemma kebab_no_double c r :
  kebab (String c r) = true -> Ascii.eqb c hyphen = true -> startsWith r "-" = false.
Proof.
  cbn [kebab]. intros H Hc. apply andb_prop in H as [H _].
  destruct (is_lower_alnum c) eqn:Ea.
  - apply hyphen_not_alnum in Ea. congruence.
  - rewrite Hc in H. cbn [orb andb] in H. now apply negb_true_iff in H.
Qed.

Lemma strip_leading_kebab s :
  kebab s = true ->
  kebab (strip_leading_hyphen s) = true
  /\ startsWith (strip_leading_hyphen s) "-" = false.
Proof.
  destruct s as [|c r]; [now split|].
  intros H. cbn [strip_leading_hyphen].
  destruct (Ascii.eqb c hyphen) eqn:E.
  - split; [eapply kebab_tail; eauto | eapply kebab_no_double; eauto].
  - split; [exact H | now rewrite startsWith_hyphen].
Qed.

Lemma strip_trailing_cons c r :
  r <> "" -> strip_trailing_hyphen (String c r) = String c (strip_trailing_hyphen r).
Proof. destruct r; [congruence | reflexivity]. Qed.

Lemma strip_trailing_head s :
  startsWith (strip_trailing_hyphen s) "-" = true -> startsWith s "-" = true.
Proof.
  destruct s as [|c [|c' r]]; try easy.
  - cbn [strip_trailing_hyphen]. destruct (Ascii.eqb c hyphen); easy.
  - rewrite strip_trailing_cons by easy. now rewrite !startsWith_hyphen.
Qed.

Lemma strip_trailing_kebab s :
  kebab s = true -> kebab (strip_trailing_hyphen s) = true.
Proof.
  induction s as [|c r IH]; [easy|].
  intros H. destruct r as [|c' r'].
  - cbn [strip_trailing_hyphen]. destruct (Ascii.eqb c hyphen); easy.
  - rewrite strip_trailing_cons by easy.
    pose proof (kebab_tail _ _ H) as Ht. specialize (IH Ht).
    cbn [kebab] in H |- *. rewrite IH, andb_true_r.
    apply andb_prop in H as [H _].
    destruct (is_lower_alnum c); [reflexivity|].
    cbn [orb] in H |- *. apply andb_prop in H as [Hc Hn]. rewrite Hc. cbn [andb].
    apply negb_true_iff in Hn. apply negb_true_iff.
    destruct (startsWith (strip_trailing_hyphen (String c' r')) "-") eqn:E; [|reflexivity].
    apply strip_trailing_head in E. congruence.
Qed.

Lemma strip_trailing_empty s :
  strip_trailing_hyphen s = "" -> s = "" \/ s = "-".
Proof.
  destruct s as [|c [|c' r]]; auto.
  - cbn [strip_trailing_hyphen]. destruct (Ascii.eqb_spec c hyphen) as [->|]; [auto|discriminate].
  - rewrite strip_trailing_cons by easy. discriminate.
Qed.

Lemma strip_trailing_end s :
  kebab s = true -> endsWith (strip_trailing_hyphen s) "-" = false.
Proof.
  induction s as [|c r IH]; [easy|].
  intros H. destruct r as [|c' r'].
  - cbn [strip_trailing_hyphen]. destruct (Ascii.eqb c hyphen) eqn:E; [reflexivity|].
    cbn [endsWith]. rewrite orb_false_r.
    apply String.eqb_neq. intros [= ->]. discriminate E.
  - rewrite strip_trailing_cons by easy.
    cbn [endsWith]. rewrite (IH (kebab_tail _ _ H)), orb_false_r.
    apply String.eqb_neq. intros [= -> Hs].
    apply (strip_trailing_empty (String c' r')) in Hs as [Hs|Hs]; [discriminate|].
    rewrite Hs in H. discriminate H.
Qed.

Lemma strip_trailing_length s : length (strip_trailing_hyphen s) <= length s.
Proof.
  induction s as [|c [|c' r] IH]; [easy| |].
  - cbn [strip_trailing_hyphen]. destruct (Ascii.eqb c hyphen); cbn; lia.
  - rewrite strip_trailing_cons by easy. cbn [length] in *. lia.
Qed.

Lemma slice0_cons n c r : slice0 (S n) (String c r) = String c (slice0 n r).
Proof. reflexivity. Qed.

Lemma slice0_length n : forall s, length (slice0 n s) <= n.
Proof.
  induction n as [|n IH]; intros [|c r]; cbn; try lia.
  specialize (IH r). unfold slice0 in IH. lia.
Qed.

Lemma slice0_head n s :
  startsWith (slice0 n s) "-" = true -> startsWith s "-" = true.
Proof.
  destruct n, s as [|c r]; try easy.
  rewrite slice0_cons. now rewrite !startsWith_hyphen.
Qed.

Lemma slice0_kebab n : forall s, kebab s = true -> kebab (slice0 n s) = true.
Proof.
  induction n as [|n IH]; intros [|c r] H; try easy.
  rewrite slice0_cons. pose proof (kebab_tail _ _ H) as Ht.
  cbn [kebab] in H |- *. rewrite (IH _ Ht), andb_true_r.
  apply andb_prop in H as [H _].
  destruct (is_lower_alnum c); [reflexivity|].
  cbn [orb] in H |- *. apply andb_prop in H as [Hc Hn]. rewrite Hc. cbn [andb].
  apply negb_true_iff in Hn. apply negb_true_iff.
  destruct (startsWith (slice0 n r) "-") eqn:E; [|reflexivity].
  apply slice0_head in E. congruence.
Qed.

Lemma kebab_chars s : kebab s = true -> all_chars slug_char s = true.
Proof.
  induction s as [|c r IH]; [easy|].
  intros H. cbn [all_chars]. rewrite (IH (kebab_tail _ _ H)), andb_true_r.
  cbn [kebab] in H. apply andb_prop in H as [H _]. unfold slug_char.
  destruct (is_lower_alnum c); [reflexivity|].
  cbn [orb] in H |- *. now apply andb_prop in H.
Qed.

Lemma kebab_single_hyphens s : kebab s = true -> includes s "--" = false.
Proof.
  induction s as [|c r IH]; [easy|].
  intros H. cbn [includes]. rewrite (IH (kebab_tail _ _ H)), orb_false_r.
  cbn [startsWith]. destruct (Ascii.eqb_spec "-"%char c) as [<-|]; [|reflexivity].
  cbn [andb]. eapply kebab_no_double; eauto.
Qed.

Lemma lower_char_symbol c :
  is_alnum c = false -> is_lower_alnum (lower_char c) = false.
Proof.
  destruct c as [[] [] [] [] [] [] [] []]; intros H;
    solve [reflexivity | discriminate H].
Qed.

Lemma replace_runs_symbols s :
  all_chars (fun c => negb (is_alnum c)) s = true ->
  replace_runs true (toLowerCase s) = ""
  /\ (replace_runs false (toLowerCase s) = ""
      \/ replace_runs false (toLowerCase s) = "-").
Proof.
  induction s as [|c r IH]; [auto|].
  cbn [all_chars toLowerCase replace_runs]. intros H.
  apply andb_prop in H as [Hc Hr]. apply negb_true_iff in Hc.
  rewrite (lower_char_symbol _ Hc). destruct (IH Hr) as [-> _]. auto.
Qed.

Lemma slugify_kebab s :
  kebab (slugify s) = true /\ startsWith (slugify s) "-" = false.
Proof.
  unfold slugify, strip_edge_hyphens.
  pose proof (replace_runs_kebab (toLowerCase s) false) as K.
  apply strip_leading_kebab in K as [K H].
  set (t := strip_leading_hyphen _) in *.
  split.
  - now apply strip_trailing_kebab, slice0_kebab, strip_trailing_kebab.
  - destruct (startsWith (strip_trailing_hyphen (slice0 60 (strip_trailing_hyphen t))) "-")
      eqn:E; [|reflexivity].
    apply strip_trailing_head, slice0_head, strip_trailing_head in E. congruence.
Qed.

(** C4.  Whatever the summary, its slug holds only lower-case letters, digits
    and hyphens, never two hyphens in a row, no hyphen at either end, and at
    most 60 characters; ["PostgreSQL"] gives ["postgresql"],
    ["foo   ---   bar"] gives ["foo-bar"], and a summary without a letter or
    digit gives the empty slug. *)
Theorem slugify_law :
  (forall s,
     all_chars slug_char (slugify s) = true
     /\ includes (slugify s) "--" = false
     /\ startsWith (slugify s) "-" = false
     /\ endsWith (slugify s) "-" = false
     /\ length (slugify s) <= 60)
  /\ slugify "PostgreSQL" = "postgresql"
  /\ slugify "foo   ---   bar" = "foo-bar"
  /\ (forall s, all_chars (fun c => negb (is_alnum c)) s = true -> slugify s = "").
Proof.
  split; [|split; [reflexivity|split; [reflexivity|]]].
  - intros s. destruct (slugify_kebab s) as [K H].
    repeat split; auto using kebab_chars, kebab_single_hyphens.
    + unfold slugify, strip_edge_hyphens.
      apply strip_trailing_end, slice0_kebab, strip_trailing_kebab.
      apply strip_leading_kebab, replace_runs_kebab.
    + unfold slugify. etransitivity; [apply strip_trailing_length|apply slice0_length].
  - intros s H. unfold slugify.
    destruct (replace_runs_symbols s H) as [_ [-> | ->]]; reflexivity.
Qed.

Lemma slugify_law_witness : slugify "!@#$%^&*()" = "".
Proof.
  apply (proj2 (proj2 (proj2 slugify_law))). reflexivity.
Defined.

(** The two slug derivations differ by the last step of [slugify] alone. *)
Lemma slugify_strips_display s :
  slugify s = strip_trailing_hyphen (slugifyForDisplay s).
Proof. reflexivity. Qed.

(** C6.  For the summary [hidden_hyphen] the 60th character of the untrimmed
    slug is a hyphen: the confirmation text of [record_decision] names a file
    ending in [-.md], while [create] wrote the file without that hyphen. *)
Theorem confirmation_path_mismatch :
  Server.confirmation_path hidden_hyphen
  = ".decisions/active/keep-every-database-migration-backwards-compatible-for-each-.md"
  /\ DecisionStore.created_path (with_summary sample hidden_hyphen)
  = ".decisions/active/keep-every-database-migration-backwards-compatible-for-each.md"
  /\ slugifyForDisplay hidden_hyphen <> slugify hidden_hyphen.
Proof.
  repeat split; try reflexivity. intros H. discriminate H.
Qed.

(** ** Relative age *)

Lemma div_ltb (m d k : Z) : (0 < d)%Z -> (m / d <? k)%Z = (m <? d * k)%Z.
Proof.
  intros Hd.
  destruct (Z.ltb_spec (m / d) k) as [H|H], (Z.ltb_spec m (d * k)) as [H'|H'];
    try reflexivity; exfalso.
  - apply (Z.div_le_lower_bound _ _ _ Hd) in H'. lia.
  - apply (Z.div_lt_upper_bound _ _ _ Hd) in H'. lia.
Qed.

(** C7.  For every elapsed time (in particular every non-negative one) the
    text [getRelativeTime] renders is the one the specification gives for the
    elapsed minutes, floored: below 1 ["just now"], below 60 minutes, below
    1440 hours, below 10080 days, below 40320 weeks, and months (days over
    30) from there on. *)
Theorem getRelativeTime_thresholds (getTime : string -> Z) (now : Z) (iso : string) :
  Server.getRelativeTime getTime now iso
  = relative_age_spec ((now - getTime iso) / 60000).
Proof.
  unfold Server.getRelativeTime, relative_age_spec. cbv zeta.
  rewrite !div_ltb by lia. reflexivity.
Qed.

(** ** The store: init *)

(** C8.  [init] leaves the three status directories present, keeps every
    listing that was there, keeps the text of an index file that was there,
    writes the empty index (version 1, no decisions) when there was none,
    and a second [init] changes nothing. *)
Theorem init_idempotent (JSON_stringify : DecisionIndex -> string)
    (now now' : string) (fs : FS) :
  let fs1 := DecisionStore.init JSON_stringify now fs in
  (forall st, readdir fs1 st <> None)
  /\ (forall st files, readdir fs st = Some files -> readdir fs1 st = Some files)
  /\ (forall st, readdir fs st = None -> readdir fs1 st = Some [])
  /\ (forall text, index_json fs = Some text -> index_json fs1 = Some text)
  /\ (index_json fs = None ->
      index_json fs1 = Some (JSON_stringify (mkIndex 1 now [])))
  /\ DecisionStore.init JSON_stringify now' fs1 = fs1.
Proof.
  destruct fs as [[a|] [s|] [r|] [i|]]; cbv zeta;
    (split; [|split; [|split; [|split; [|split]]]];
     [ intros []; discriminate
     | intros [] files H; (exact H || discriminate H)
     | intros [] H; (reflexivity || discriminate H)
     | intros text H; (exact H || discriminate H)
     | intros H; (reflexivity || discriminate H)
     | reflexivity ]).
Qed.

Lemma init_idempotent_witness :
  index_json (DecisionStore.init ids_text "2026-02-12T09:30:00Z" no_tree) = Some ""
  /\ readdir (DecisionStore.init ids_text "2026-02-12T09:30:00Z" no_tree) active = Some [].
Proof.
  pose proof (init_idempotent ids_text "2026-02-12T09:30:00Z" "later" no_tree) as H.
  cbv zeta in H. destruct H as (_ & _ & Hd & _ & Hi & _).
  split; [apply Hi | apply Hd]; reflexivity.
Defined.

(** ** The store: scanning the directories *)

Lemma readdir_set_dir fs st d st' :
  readdir (set_dir fs st d) st' = if status_eqb st st' then Some d else readdir fs st'.
Proof. destruct st, st'; reflexivity. Qed.

Lemma status_eqb_eq a b : status_eqb a b = true <-> a = b.
Proof. destruct a, b; split; (reflexivity || discriminate). Qed.

Lemma index_json_set_dir fs st d : index_json (set_dir fs st d) = index_json fs.
Proof. destruct st; reflexivity. Qed.

Section Scan.

Variable matter : string -> result (DecisionFrontmatter * string).
Variable minimatch : string -> string -> bool.
Variable getTime : string -> Z.
Variable isAbsolute : string -> bool.
Variable relative : string -> string -> string.
Variable JSON_stringify : DecisionIndex -> string.

Local Abbreviation parse := (Parser.parseDecision matter).
Local Abbreviation get_files := (DecisionStore.get_files matter).
Local Abbreviation get_dirs := (DecisionStore.get_dirs matter).
Local Abbreviation get := (DecisionStore.get matter).
Local Abbreviation list_files := (DecisionStore.list_files matter minimatch).
Local Abbreviation list_dirs := (DecisionStore.list_dirs matter minimatch).
Local Abbreviation list_ := (DecisionStore.list_ matter minimatch getTime).
Local Abbreviation queryByFilePath :=
  (DecisionStore.queryByFilePath matter minimatch getTime isAbsolute relative).
Local Abbreviation index_files := (IndexBuilder.index_files matter).
Local Abbreviation index_dirs := (IndexBuilder.index_dirs matter).
Local Abbreviation rebuildIndex := (IndexBuilder.rebuildIndex matter getTime JSON_stringify).

(** *** Entries that are not [.md] files *)

Lemma get_files_skip wanted name text post pre :
  is_md name = false ->
  get_files wanted (pre ++ (name, text) :: post)%list = get_files wanted (pre ++ post)%list.
Proof.
  intros Hmd. induction pre as [|[n t] pre IH]; cbn [app DecisionStore.get_files].
  - now rewrite Hmd.
  - now rewrite IH.
Qed.

Lemma list_files_skip options name text post pre :
  is_md name = false -> forall results,
  list_files options (pre ++ (name, text) :: post)%list results
  = list_files options (pre ++ post)%list results.
Proof.
  intros Hmd. induction pre as [|[n t] pre IH]; intros results;
    cbn [app DecisionStore.list_files].
  - now rewrite Hmd.
  - destruct (is_md n); cbn [negb]; [|apply IH].
    destruct (parse t) as [d|e]; cbn [bind]; [|reflexivity].
    now rewrite !IH.
Qed.

Lemma index_files_skip st name text post pre :
  is_md name = false -> forall entries,
  index_files st (pre ++ (name, text) :: post)%list entries
  = index_files st (pre ++ post)%list entries.
Proof.
  intros Hmd. induction pre as [|[n t] pre IH]; intros entries;
    cbn [app IndexBuilder.index_files].
  - now rewrite Hmd.
  - destruct (is_md n); cbn [negb]; [|apply IH].
    destruct (parse t) as [d|e]; cbn [bind]; [|reflexivity].
    apply IH.
Qed.

Section Extra.

Variables (fs : FS) (st : DecisionStatus) (pre post : Dir) (name text : string).
Hypothesis not_md : is_md name = false.
Hypothesis without : readdir fs st = Some (pre ++ post)%list.

Let fs' := set_dir fs st (pre ++ (name, text) :: post)%list.

Lemma get_dirs_extra wanted dirs : get_dirs fs' wanted dirs = get_dirs fs wanted dirs.
Proof.
  induction dirs as [|s dirs IH]; [reflexivity|].
  cbn [DecisionStore.get_dirs]. unfold fs' at 1. rewrite readdir_set_dir, IH.
  destruct (status_eqb st s) eqn:E; [|reflexivity].
  apply status_eqb_eq in E. subst s.
  now rewrite without, get_files_skip.
Qed.

Lemma list_dirs_extra options dirs : forall results,
  list_dirs fs' options dirs results = list_dirs fs options dirs results.
Proof.
  induction dirs as [|s dirs IH]; intros results; [reflexivity|].
  cbn [DecisionStore.list_dirs]. unfold fs' at 1. rewrite readdir_set_dir.
  destruct (status_eqb st s) eqn:E.
  - apply status_eqb_eq in E. subst s.
    rewrite without, list_files_skip by assumption.
    destruct (list_files options (pre ++ post)%list results); cbn [bind]; auto.
  - destruct (readdir fs s) as [d|]; [|apply IH].
    destruct (list_files options d results); cbn [bind]; auto.
Qed.

Lemma index_dirs_extra dirs : forall entries,
  index_dirs fs' dirs entries = index_dirs fs dirs entries.
Proof.
  induction dirs as [|s dirs IH]; intros entries; [reflexivity|].
  cbn [IndexBuilder.index_dirs]. unfold fs' at 1. rewrite readdir_set_dir.
  destruct (status_eqb st s) eqn:E.
  - apply status_eqb_eq in E. subst s.
    rewrite without, index_files_skip by assumption.
    destruct (index_files st (pre ++ post)%list entries); cbn [bind]; auto.
  - destruct (readdir fs s) as [d|]; [|apply IH].
    destruct (index_files s d entries); cbn [bind]; auto.
Qed.

(** C9.  A store with one more entry whose name does not end in [.md],
    anywhere in a status directory and whatever its text, answers [get],
    [list], [queryByFilePath] and [rebuildIndex] exactly as the store
    without it: the entry gives no decision, no index entry and no
    failure. *)
Theorem non_md_ignored :
  (forall wanted, get fs' wanted = get fs wanted)
  /\ (forall options, list_ fs' options = list_ fs options)
  /\ (forall root filePath,
        queryByFilePath root fs' filePath = queryByFilePath root fs filePath)
  /\ (forall now, fst (rebuildIndex now fs') = fst (rebuildIndex now fs)).
Proof.
  assert (L : forall options, list_ fs' options = list_ fs options).
  { intros options. unfold DecisionStore.list_. now rewrite list_dirs_extra. }
  split; [|split; [|split]].
  - intros wanted. apply get_dirs_extra.
  - exact L.
  - intros root filePath. apply L.
  - intros now. unfold IndexBuilder.rebuildIndex. rewrite index_dirs_extra.
    destruct (index_dirs fs STATUS_DIRS []); reflexivity.
Qed.

End Extra.

(** *** The order of the scan *)

Lemma get_files_app wanted l1 l2 :
  get_files wanted (l1 ++ l2)%list
  = (found <- get_files wanted l1 ;;
     match found with
     | Some d => Return (Some d)
     | None => get_files wanted l2
     end).
Proof.
  induction l1 as [|[n t] l1 IH]; cbn [app DecisionStore.get_files]; [reflexivity|].
  destruct (is_md n); cbn [negb]; [|exact IH].
  destruct (parse t) as [d|e]; cbn [bind]; [|reflexivity].
  destruct (String.eqb (id d) wanted); [reflexivity|exact IH].
Qed.

Lemma get_files_nil wanted : get_files wanted [] = Return None.
Proof. reflexivity. Qed.

Lemma get_scan fs wanted : get fs wanted = get_files wanted (scan_order fs).
Proof.
  unfold DecisionStore.get, scan_order, listing, STATUS_DIRS.
  cbn [DecisionStore.get_dirs].
  rewrite !get_files_app.
  destruct (readdir fs active) as [a|], (readdir fs superseded) as [s|],
    (readdir fs archived) as [r|]; rewrite ?get_files_nil; cbn [bind];
    repeat match goal with
      | |- context [DecisionStore.get_files matter wanted ?l] =>
          destruct (DecisionStore.get_files matter wanted l) as [[?|]|?]; cbn [bind]
      end; reflexivity.
Qed.

Lemma get_files_none wanted files :
  get_files wanted files = Return None ->
  forall name text, In (name, text) files -> is_md name = true ->
  exists d, parse text = Return d /\ id d <> wanted.
Proof.
  induction files as [|[n t] files IH]; intros H name text Hin Hmd; [destruct Hin|].
  cbn [DecisionStore.get_files] in H.
  destruct Hin as [[= -> ->]|Hin].
  - rewrite Hmd in H. cbn [negb] in H.
    destruct (parse text) as [d|e]; cbn [bind] in H; [|discriminate H].
    exists d. split; [reflexivity|].
    destruct (String.eqb_spec (id d) wanted); [discriminate H|assumption].
  - destruct (is_md n); cbn [negb] in H; [|now apply (IH H name)].
    destruct (parse t) as [d|e]; cbn [bind] in H; [|discriminate H].
    destruct (String.eqb (id d) wanted); [discriminate H|now apply (IH H name)].
Qed.

Lemma get_files_found wanted files d :
  get_files wanted files = Return (Some d) ->
  exists name text, In (name, text) files /\ is_md name = true
    /\ parse text = Return d /\ id d = wanted.
Proof.
  induction files as [|[n t] files IH]; intros H; [discriminate H|].
  cbn [DecisionStore.get_files] in H.
  destruct (is_md n) eqn:Hmd; cbn [negb] in H.
  - destruct (parse t) as [d'|e] eqn:Hp; cbn [bind] in H; [|discriminate H].
    destruct (String.eqb_spec (id d') wanted) as [Hid|Hid].
    + injection H as ->. exists n, t. repeat split; auto. now left.
    + destruct (IH H) as (name & text & Hin & ?). exists name, text. split; [now right|assumption].
  - destruct (IH H) as (name & text & Hin & ?). exists name, text. split; [now right|assumption].
Qed.

Lemma get_files_other_ids wanted files :
  other_ids matter wanted files -> get_files wanted files = Return None.
Proof.
  induction files as [|[n t] files IH]; intros H; [reflexivity|].
  cbn [DecisionStore.get_files].
  assert (H' : other_ids matter wanted files).
  { intros name text Hin. apply H. now right. }
  destruct (is_md n) eqn:Hmd; cbn [negb]; [|now apply IH].
  destruct (H n t (or_introl eq_refl) Hmd) as (d & -> & Hne). cbn [bind].
  destruct (String.eqb_spec (id d) wanted); [contradiction|now apply IH].
Qed.

Lemma get_files_returns wanted files :
  all_parse matter files -> exists found, get_files wanted files = Return found.
Proof.
  induction files as [|[n t] files IH]; intros H; [now exists None|].
  cbn [DecisionStore.get_files].
  assert (H' : all_parse matter files).
  { intros name text Hin. apply H. now right. }
  destruct (is_md n) eqn:Hmd; cbn [negb]; [|now apply IH].
  destruct (H n t (or_introl eq_refl) Hmd) as (d & ->). cbn [bind].
  destruct (String.eqb (id d) wanted); [now exists (Some d)|now apply IH].
Qed.

Lemma in_scan_listing fs st name text :
  In (name, text) (listing fs st) -> In (name, text) (scan_order fs).
Proof. unfold scan_order. destruct st; auto using in_or_app. Qed.

(** Whatever [get] returns sits in a directory before which no directory
    holds a file with the wanted id. *)
Lemma get_found_first fs wanted d :
  get fs wanted = Return (Some d) ->
  exists st name text,
    In (name, text) (listing fs st) /\ is_md name = true
    /\ parse text = Return d /\ id d = wanted
    /\ forall st' name' text' d',
         rank st' < rank st -> In (name', text') (listing fs st') ->
         is_md name' = true -> parse text' = Return d' -> id d' <> wanted.
Proof.
  rewrite get_scan. unfold scan_order. rewrite !get_files_app.
  destruct (get_files wanted (listing fs active)) as [[da|]|e] eqn:Ha;
    cbn [bind]; [| |discriminate].
  { intros [= ->]. destruct (get_files_found _ _ _ Ha) as (n & t & Hin & Hmd & Hp & Hid).
    exists active, n, t. repeat split; auto. intros st' ? ? ? Hr. inversion Hr. }
  pose proof (get_files_none _ _ Ha) as Na.
  destruct (get_files wanted (listing fs superseded)) as [[ds|]|e] eqn:Hs;
    cbn [bind]; [| |discriminate].
  { intros [= ->]. destruct (get_files_found _ _ _ Hs) as (n & t & Hin & Hmd & Hp & Hid).
    exists superseded, n, t. repeat split; auto.
    intros [] n' t' d' Hr Hin' Hmd' Hp'; cbn in Hr; try lia.
    destruct (Na _ _ Hin' Hmd') as (d'' & Hp'' & Hne). congruence. }
  pose proof (get_files_none _ _ Hs) as Ns.
  intros Hr. destruct (get_files_found _ _ _ Hr) as (n & t & Hin & Hmd & Hp & Hid).
  exists archived, n, t. repeat split; auto.
  intros [] n' t' d' Hlt Hin' Hmd' Hp'; cbn in Hlt; try lia.
  - destruct (Na _ _ Hin' Hmd') as (d'' & Hp'' & Hne). congruence.
  - destruct (Ns _ _ Hin' Hmd') as (d'' & Hp'' & Hne). congruence.
Qed.

(** C10.  [get] returns the first decision with the wanted id in the
    listings of [active], [superseded] and [archived], read in that order.
    A [.md] file that parses to a decision with the wanted id is the answer
    of [get] as soon as every [.md] file before it in that order parses to a
    decision with another id.  Whatever [get] returns is a stored decision
    with the wanted id, in a directory before which no directory holds a
    file with that id.  And when files of two directories carry the id and
    every stored file parses, [get] returns a decision, stored in a
    directory no later than the earlier of the two. *)
Theorem get_first_in_scan_order fs wanted :
  (forall pre name text post d,
     scan_order fs = (pre ++ (name, text) :: post)%list ->
     other_ids matter wanted pre ->
     is_md name = true -> parse text = Return d -> id d = wanted ->
     get fs wanted = Return (Some d))
  /\ (forall d, get fs wanted = Return (Some d) ->
      exists st name text,
        In (name, text) (listing fs st) /\ is_md name = true
        /\ parse text = Return d /\ id d = wanted
        /\ forall st' name' text' d',
             rank st' < rank st -> In (name', text') (listing fs st') ->
             is_md name' = true -> parse text' = Return d' -> id d' <> wanted)
  /\ (forall st1 st2 name1 text1 d1 name2 text2 d2,
        rank st1 < rank st2 ->
        In (name1, text1) (listing fs st1) -> is_md name1 = true ->
        parse text1 = Return d1 -> id d1 = wanted ->
        In (name2, text2) (listing fs st2) -> is_md name2 = true ->
        parse text2 = Return d2 -> id d2 = wanted ->
        all_parse matter (scan_order fs) ->
        exists d st name text,
          get fs wanted = Return (Some d)
          /\ In (name, text) (listing fs st) /\ rank st <= rank st1
          /\ is_md name = true /\ parse text = Return d /\ id d = wanted).
Proof.
  split; [|split].
  - intros pre name text post d Hscan Hpre Hmd Hp Hid.
    rewrite get_scan, Hscan, get_files_app, (get_files_other_ids _ _ Hpre).
    cbn [bind DecisionStore.get_files]. rewrite Hmd, Hp. cbn [negb bind].
    now rewrite Hid, String.eqb_refl.
  - apply get_found_first.
  - intros st1 st2 name1 text1 d1 name2 text2 d2 _ Hin1 Hmd1 Hp1 Hid1 _ _ _ _ Hall.
    destruct (get_files_returns wanted _ Hall) as [[d|] Hg].
    + rewrite <- get_scan in Hg.
      destruct (get_found_first _ _ _ Hg) as (st & n & t & Hin & Hmd & Hp & Hid & Hfirst).
      exists d, st, n, t. repeat split; auto.
      destruct (Nat.le_gt_cases (rank st) (rank st1)) as [|Hlt]; [assumption|].
      now destruct (Hfirst _ _ _ _ Hlt Hin1 Hmd1 Hp1).
    + destruct (get_files_none _ _ Hg _ _ (in_scan_listing _ _ _ _ Hin1) Hmd1)
        as (d & Hp & Hne). congruence.
Qed.

(** *** A file that does not parse *)

Lemma list_files_raise options files name text e :
  In (name, text) files -> is_md name = true -> parse text = Raise e ->
  forall results, exists e', list_files options files results = Raise e'.
Proof.
  intros Hin Hmd Hp.
  induction files as [|[n t] files IH]; intros results; [destruct Hin|].
  cbn [DecisionStore.list_files].
  destruct Hin as [[= -> ->]|Hin].
  - rewrite Hmd, Hp. now exists e.
  - destruct (is_md n); cbn [negb]; [|now apply IH].
    destruct (parse t) as [d|e0]; cbn [bind]; [|now exists e0].
    destruct (negb _); [now apply IH|]. destruct (negb _); now apply IH.
Qed.

Lemma index_files_raise st files name text e :
  In (name, text) files -> is_md name = true -> parse text = Raise e ->
  forall entries, exists e', index_files st files entries = Raise e'.
Proof.
  intros Hin Hmd Hp.
  induction files as [|[n t] files IH]; intros entries; [destruct Hin|].
  cbn [IndexBuilder.index_files].
  destruct Hin as [[= -> ->]|Hin].
  - rewrite Hmd, Hp. now exists e.
  - destruct (is_md n); cbn [negb]; [|now apply IH].
    destruct (parse t) as [d|e0]; cbn [bind]; [|now exists e0].
    now apply IH.
Qed.

(** Nothing but the front-matter library fails in [parseDecision]. *)
Lemma parseDecision_raises text e : parse text = Raise e <-> matter text = Raise e.
Proof.
  unfold Parser.parseDecision.
  destruct (matter text) as [[fm content]|e']; cbn [bind]; split; congruence.
Qed.

Section Malformed.

Variables (fs : FS) (st : DecisionStatus) (files : Dir) (name text : string) (e : exn).
Hypothesis stored : readdir fs st = Some files.
Hypothesis listed : In (name, text) files.
Hypothesis md : is_md name = true.
Hypothesis malformed : parse text = Raise e.

Lemma list_dirs_raise options dirs :
  In st dirs -> forall results, exists e', list_dirs fs options dirs results = Raise e'.
Proof.
  induction dirs as [|s dirs IH]; intros Hin results; [destruct Hin|].
  cbn [DecisionStore.list_dirs].
  destruct (status_eqb s st) eqn:E.
  - apply status_eqb_eq in E. subst s. rewrite stored.
    destruct (list_files_raise options _ _ _ _ listed md malformed results) as [e' ->].
    now exists e'.
  - assert (Hin' : In st dirs).
    { destruct Hin as [->|]; [|assumption].
      destruct st; discriminate E. }
    destruct (readdir fs s) as [l|]; [|now apply IH].
    destruct (list_files options l results) as [r|e']; cbn [bind];
      [now apply IH|now exists e'].
Qed.

Lemma index_dirs_raise dirs :
  In st dirs -> forall entries, exists e', index_dirs fs dirs entries = Raise e'.
Proof.
  induction dirs as [|s dirs IH]; intros Hin entries; [destruct Hin|].
  cbn [IndexBuilder.index_dirs].
  destruct (status_eqb s st) eqn:E.
  - apply status_eqb_eq in E. subst s. rewrite stored.
    destruct (index_files_raise st _ _ _ _ listed md malformed entries) as [e' ->].
    now exists e'.
  - assert (Hin' : In st dirs).
    { destruct Hin as [->|]; [|assumption].
      destruct st; discriminate E. }
    destruct (readdir fs s) as [l|]; [|now apply IH].
    destruct (index_files s l entries) as [r|e']; cbn [bind];
      [now apply IH|now exists e'].
Qed.

Lemma in_scan_order : In (name, text) (scan_order fs).
Proof.
  unfold scan_order. assert (H : In (name, text) (listing fs st)).
  { unfold listing. now rewrite stored. }
  destruct st; auto using in_or_app.
Qed.


End Malformed.

End Scan.

(** ** The parser: reading back a serialized decision *)

Lemma append_assoc (a b c : string) : (a ++ b) ++ c = a ++ b ++ c.
Proof. induction a as [|x a IH]; cbn; [reflexivity|now rewrite IH]. Qed.

Lemma endsWith_append (a s : string) : endsWith (a ++ s) s = true.
Proof.
  induction a as [|x a IH].
  - cbn [append]. destruct s; cbn [endsWith]; now rewrite String.eqb_refl.
  - cbn [append endsWith]. rewrite IH. apply orb_true_r.
Qed.

Lemma ensure_newline_append a : ensure_newline (a ++ nl) = a ++ nl.
Proof. unfold ensure_newline. now rewrite endsWith_append. Qed.

Lemma trimEnd_length s : length (trimEnd s) <= length s.
Proof.
  induction s as [|c r IH]; [easy|].
  cbn [trimEnd]. destruct (trimEnd r); [destruct (is_space c)|]; cbn [length] in *; lia.
Qed.

Lemma trimStart_length s : length (trimStart s) <= length s.
Proof.
  induction s as [|c r IH]; [easy|].
  cbn [trimStart]. destruct (is_space c); cbn [length] in *; lia.
Qed.

(** A text equal to its own [trim] starts with a character that is not
    white space and is its own [trimEnd]. *)
Lemma trim_fixed s :
  s <> "" -> trim s = s ->
  exists c r, s = String c r /\ is_space c = false /\ trimEnd s = s.
Proof.
  destruct s as [|c r]; [congruence|]. intros _ H. exists c, r.
  unfold trim in H. cbn [trimStart] in H.
  destruct (is_space c) eqn:E; [|auto].
  exfalso. apply (f_equal length) in H.
  pose proof (trimEnd_length (trimStart r)). pose proof (trimStart_length r).
  cbn [length] in H. lia.
Qed.

Lemma trimEnd_fixed_cons c r :
  trimEnd (String c r) = String c r ->
  (r = "" /\ is_space c = false) \/ (r <> "" /\ trimEnd r = r).
Proof.
  cbn [trimEnd]. destruct (trimEnd r) as [|c' r'] eqn:E.
  - destruct (is_space c); [discriminate|]. intros [= <-]. now left.
  - intros [= <-]. right. split; [discriminate|reflexivity].
Qed.

Lemma trimEnd_spaces w : all_chars is_space w = true -> trimEnd w = "".
Proof.
  induction w as [|c r IH]; [easy|]. cbn [all_chars trimEnd].
  intros H. apply andb_prop in H as [Hc Hr]. now rewrite (IH Hr), Hc.
Qed.

Lemma trimEnd_append s w : all_chars is_space w = true -> trimEnd (s ++ w) = trimEnd s.
Proof.
  intros H. induction s as [|c r IH]; cbn [append trimEnd].
  - now apply trimEnd_spaces.
  - now rewrite IH.
Qed.

(** A heading that holds no line feed cannot start inside [x] and run over
    the line feed after it. *)
Lemma startsWith_before_newline h : forall x rest,
  all_chars (fun c => negb (is_LF c)) h = true ->
  startsWith (x ++ nl ++ rest) h = true -> startsWith x h = true.
Proof.
  induction h as [|a h IH]; intros x rest Hh H; [apply startsWith_nil|].
  cbn [all_chars] in Hh. apply andb_prop in Hh as [Ha Hh].
  destruct x as [|b x]; cbn [append startsWith nl] in H |- *.
  - apply andb_prop in H as [H _]. unfold is_LF in Ha. rewrite H in Ha. discriminate Ha.
  - apply andb_prop in H as [Hb H]. rewrite Hb. cbn [andb]. now apply (IH x rest).
Qed.

Lemma match_section_eq heading content :
  match_section heading content =
  match (if startsWith content heading
         then skip_space_newline (drop (length heading) content)
         else None) with
  | Some rest => Some (lazy_until_heading rest)
  | None =>
      match content with
      | "" => None
      | String _ r => match_section heading r
      end
  end.
Proof. destruct content; reflexivity. Qed.

Lemma match_section_skip heading c r :
  startsWith (String c r) heading = false ->
  match_section heading (String c r) = match_section heading r.
Proof. intros H. rewrite match_section_eq. now rewrite H. Qed.

Lemma match_section_through h x rest :
  all_chars (fun c => negb (is_LF c)) h = true ->
  includes x h = false ->
  match_section h (x ++ nl ++ rest) = match_section h (nl ++ rest).
Proof.
  intros Hh. induction x as [|c r IH]; intros Hx; [reflexivity|].
  cbn [includes] in Hx. apply orb_false_elim in Hx as [Hs Hr].
  cbn [append]. rewrite match_section_skip; [now apply IH|].
  destruct (startsWith (String c (r ++ nl ++ rest)) h) eqn:E; [|reflexivity].
  apply (startsWith_before_newline h (String c r) rest Hh) in E. congruence.
Qed.

Lemma lazy_until_heading_eq s :
  lazy_until_heading s =
  if startsWith s (nl ++ "## ") || all_chars is_LF s then ""
  else match s with
       | "" => ""
       | String c r => String c (lazy_until_heading r)
       end.
Proof. destruct s; reflexivity. Qed.

Lemma LF_is_space c : is_LF c = true -> is_space c = true.
Proof.
  unfold is_LF. intros H. apply Ascii.eqb_eq in H. now subst c.
Qed.

(** The lazy capture runs through a clean text up to the line feed after
    it. *)
Lemma lazy_through x : forall rest,
  x <> "" -> trimEnd x = x -> includes x (nl ++ "## ") = false ->
  lazy_until_heading (x ++ nl ++ rest) = x ++ lazy_until_heading (nl ++ rest).
Proof.
  induction x as [|c r IH]; intros rest Hne Ht Hx; [congruence|].
  cbn [includes] in Hx. apply orb_false_elim in Hx as [Hs Hr].
  rewrite lazy_until_heading_eq. cbn [append].
  assert (Hc : is_LF c = true -> r <> "" /\ startsWith r "## " = false).
  { intros Hc. destruct (trimEnd_fixed_cons _ _ Ht) as [[-> Hsp]|[Hr' _]].
    - apply LF_is_space in Hc. congruence.
    - split; [assumption|].
      unfold is_LF in Hc. apply Ascii.eqb_eq in Hc. subst c.
      cbn [startsWith nl append] in Hs. now rewrite Ascii.eqb_refl in Hs. }
  destruct (trimEnd_fixed_cons _ _ Ht) as [[-> Hsp]|[Hr' Ht']].
  - (* the last character *)
    assert (E : is_LF c = false).
    { destruct (is_LF c) eqn:E; [|reflexivity]. apply LF_is_space in E. congruence. }
    assert (E2 : Ascii.eqb LF c = false) by (rewrite Ascii.eqb_sym; exact E).
    cbn [append all_chars startsWith nl]. rewrite E2, E. reflexivity.
  - rewrite (IH rest Hr' Ht' Hr).
    replace (startsWith (String c (r ++ nl ++ rest)) (nl ++ "## ")
             || all_chars is_LF (String c (r ++ nl ++ rest))) with false; [reflexivity|].
    symmetry. apply orb_false_intro.
    + cbn [startsWith nl append]. destruct (Ascii.eqb LF c) eqn:E; [|reflexivity].
      cbn [andb]. rewrite Ascii.eqb_sym in E. destruct (Hc E) as [_ Hn].
      change (String LF rest) with (nl ++ rest).
      destruct (startsWith (r ++ nl ++ rest) "## ") eqn:E'; [|reflexivity].
      apply startsWith_before_newline in E'; [congruence|reflexivity].
    + cbn [all_chars]. destruct (is_LF c) eqn:E; [|reflexivity]. cbn [andb].
      clear - Ht' Hr'. revert Hr' Ht'. induction r as [|a r IHr]; [congruence|].
      intros _ Ht. cbn [append all_chars].
      destruct (is_LF a) eqn:Ea; [|reflexivity]. cbn [andb].
      destruct (trimEnd_fixed_cons _ _ Ht) as [[-> Hsp]|[Hr' Ht']].
      * apply LF_is_space in Ea. congruence.
      * now apply IHr.
Qed.

Lemma append_nil_r (a : string) : a ++ "" = a.
Proof. induction a as [|x a IH]; cbn; [reflexivity|now rewrite IH]. Qed.

Lemma endsWith_app_r (a b s : string) : endsWith b s = true -> endsWith (a ++ b) s = true.
Proof.
  intros H. induction a as [|x a IH]; [exact H|].
  cbn [append endsWith]. rewrite IH. apply orb_true_r.
Qed.

Lemma append_nil_l (a : string) : "" ++ a = a.
Proof. reflexivity. Qed.

Lemma ensure_newline_ends x : endsWith x nl = true -> ensure_newline x = x.
Proof. unfold ensure_newline. now intros ->. Qed.

Lemma startsWith_append h x : startsWith (h ++ x) h = true.
Proof.
  induction h as [|a h IH]; [apply startsWith_nil|].
  cbn [append startsWith]. now rewrite Ascii.eqb_refl, IH.
Qed.

Lemma drop_append h x : drop (length h) (h ++ x) = x.
Proof. induction h as [|a h IH]; [reflexivity|exact IH]. Qed.

Lemma section_text_some h c :
  c <> "" -> section_text h (Some c) = nl ++ h ++ nl ++ nl ++ c ++ nl.
Proof. destruct c; [congruence|reflexivity]. Qed.

Lemma skip_space_newline_blank_line c t :
  is_space c = false -> skip_space_newline (nl ++ nl ++ String c t) = Some (String c t).
Proof.
  intros H. unfold nl. cbn [append skip_space_newline]. rewrite H. reflexivity.
Qed.

(** A heading of the body is found where [serializeDecision] wrote it, and
    the capture is the clean text under it. *)
Lemma read_section h c rest :
  h <> "" -> all_chars (fun a => negb (is_LF a)) h = true ->
  clean_text c ->
  match_section h (nl ++ h ++ nl ++ nl ++ c ++ nl ++ rest)
  = Some (c ++ lazy_until_heading (nl ++ rest)).
Proof.
  intros Hh Hlf (Hne & Htrim & Hinc).
  destruct (trim_fixed c Hne Htrim) as (c0 & r0 & -> & Hc0 & Hend).
  etransitivity;
    [apply (match_section_skip h LF (h ++ nl ++ nl ++ String c0 r0 ++ nl ++ rest))|].
  - clear - Hh Hlf. destruct h as [|a h]; [congruence|].
    cbn [all_chars] in Hlf. apply andb_prop in Hlf as [Ha _].
    apply negb_true_iff in Ha. unfold is_LF in Ha.
    cbn [startsWith]. now rewrite Ha.
  - rewrite match_section_eq, startsWith_append, drop_append.
    change ((String c0 r0) ++ nl ++ rest) with (String c0 (r0 ++ nl ++ rest)).
    rewrite (skip_space_newline_blank_line _ _ Hc0).
    change (String c0 (r0 ++ nl ++ rest)) with ((String c0 r0) ++ nl ++ rest).
    now rewrite lazy_through.
Qed.

Lemma match_section_skip_nl h x :
  startsWith (nl ++ x) h = false -> match_section h (nl ++ x) = match_section h x.
Proof. exact (match_section_skip h LF x). Qed.

Lemma trim_clean_newline c : clean_text c -> trim (c ++ nl) = c.
Proof.
  intros (Hne & Htrim & _).
  destruct (trim_fixed c Hne Htrim) as (c0 & r0 & -> & Hc0 & Hend).
  unfold trim. cbn [append trimStart]. rewrite Hc0.
  change (String c0 (r0 ++ nl)) with (String c0 r0 ++ nl).
  rewrite trimEnd_append; [exact Hend|reflexivity].
Qed.

Lemma consequences_after_context c rest :
  includes c "## Consequences" = false ->
  match_section "## Consequences" (nl ++ "## Context" ++ nl ++ nl ++ c ++ nl ++ rest)
  = match_section "## Consequences" (nl ++ rest).
Proof.
  intros H. cbn [append nl].
  repeat (rewrite match_section_skip by reflexivity).
  change (String LF rest) with (nl ++ rest).
  now apply match_section_through.
Qed.

Lemma context_not_in_consequences q rest :
  includes q "## Context" = false ->
  match_section "## Context" (nl ++ "## Consequences" ++ nl ++ nl ++ q ++ nl ++ rest)
  = match_section "## Context" (nl ++ rest).
Proof.
  intros H. cbn [append nl].
  repeat (rewrite match_section_skip by reflexivity).
  change (String LF rest) with (nl ++ rest).
  now apply match_section_through.
Qed.

(** What the two expressions of [parseDecision] find in the body that
    [serializeDecision] wrote. *)
Lemma body_read_back ctx csq :
  (forall c, ctx = Some c -> clean_text c /\ includes c "## Consequences" = false) ->
  (forall q, csq = Some q ->
     clean_text q /\ (ctx = None -> includes q "## Context" = false)) ->
  let content :=
    ensure_newline (section_text "## Context" ctx ++ section_text "## Consequences" csq) in
  option_map trim (match_section "## Context" content) = ctx
  /\ option_map trim (match_section "## Consequences" content) = csq.
Proof.
  intros Hc Hq.
  destruct ctx as [c|], csq as [q|]; cbv zeta.
  - destruct (Hc c eq_refl) as [Cc Ic]. destruct (Hq q eq_refl) as [Cq _].
    rewrite !section_text_some by apply Cc || apply Cq.
    rewrite !append_assoc.
    assert (E : ensure_newline
                  (nl ++ "## Context" ++ nl ++ nl ++ c ++ nl
                   ++ nl ++ "## Consequences" ++ nl ++ nl ++ q ++ nl)
                = nl ++ "## Context" ++ nl ++ nl ++ c ++ nl
                  ++ nl ++ "## Consequences" ++ nl ++ nl ++ q ++ nl).
    { apply ensure_newline_ends. repeat apply endsWith_app_r. reflexivity. }
    rewrite E. split.
    + rewrite read_section by (assumption || reflexivity || discriminate).
      cbn [option_map]. f_equal.
      replace (lazy_until_heading (nl ++ nl ++ "## Consequences" ++ nl ++ nl ++ q ++ nl))
        with nl by reflexivity.
      now apply trim_clean_newline.
    + rewrite consequences_after_context by assumption.
      rewrite match_section_skip_nl by reflexivity.
      replace (nl ++ "## Consequences" ++ nl ++ nl ++ q ++ nl)
        with (nl ++ "## Consequences" ++ nl ++ nl ++ q ++ nl ++ "") by reflexivity.
      rewrite read_section by (assumption || reflexivity || discriminate).
      change (lazy_until_heading (nl ++ "")) with "". rewrite append_nil_r.
      cbn [option_map]. f_equal. apply Cq.
  - destruct (Hc c eq_refl) as [Cc Ic].
    rewrite section_text_some by apply Cc. cbn [section_text]. rewrite append_nil_r.
    assert (E : ensure_newline (nl ++ "## Context" ++ nl ++ nl ++ c ++ nl)
                = nl ++ "## Context" ++ nl ++ nl ++ c ++ nl).
    { apply ensure_newline_ends. repeat apply endsWith_app_r. reflexivity. }
    rewrite E.
    change (nl ++ "## Context" ++ nl ++ nl ++ c ++ nl)
      with (nl ++ "## Context" ++ nl ++ nl ++ c ++ nl ++ "").
    split.
    + rewrite read_section by (assumption || reflexivity || discriminate).
      change (lazy_until_heading (nl ++ "")) with "". rewrite append_nil_r.
      cbn [option_map]. f_equal. apply Cc.
    + now rewrite consequences_after_context by assumption.
  - destruct (Hq q eq_refl) as [Cq Iq]. specialize (Iq eq_refl).
    rewrite section_text_some by apply Cq. cbn [section_text]. rewrite append_nil_l.
    assert (E : ensure_newline (nl ++ "## Consequences" ++ nl ++ nl ++ q ++ nl)
                = nl ++ "## Consequences" ++ nl ++ nl ++ q ++ nl).
    { apply ensure_newline_ends. repeat apply endsWith_app_r. reflexivity. }
    rewrite E.
    change (nl ++ "## Consequences" ++ nl ++ nl ++ q ++ nl)
      with (nl ++ "## Consequences" ++ nl ++ nl ++ q ++ nl ++ "").
    split.
    + now rewrite context_not_in_consequences by assumption.
    + rewrite read_section by (assumption || reflexivity || discriminate).
      change (lazy_until_heading (nl ++ "")) with "". rewrite append_nil_r.
      cbn [option_map]. f_equal. apply Cq.
  - split; reflexivity.
Qed.

Lemma with_body_frontmatter d :
  with_body (frontmatter_of d) (context d) (consequences d) = d.
Proof. destruct d; reflexivity. Qed.

(** C1, as the code has it.  A decision whose context and consequences,
    where set, are clean texts that do not hold the other heading is read
    back field for field from its own serialization, unset fields unset,
    whenever the front-matter library gives back the front matter and the
    body it was given. *)
Theorem parse_serialize_roundtrip
    (matter : string -> result (DecisionFrontmatter * string))
    (matter_stringify : string -> DecisionFrontmatter -> string)
    (d : Decision) :
  Parser.matter_reads_back matter matter_stringify d ->
  roundtrip_safe d ->
  Parser.parseDecision matter (Parser.serializeDecision matter_stringify d) = Return d.
Proof.
  intros Hlib [Hc Hq].
  unfold Parser.parseDecision, Parser.serializeDecision.
  unfold Parser.matter_reads_back in Hlib. cbv zeta in Hlib |- *.
  cbn [append]. rewrite Hlib. cbn [bind].
  destruct (body_read_back (context d) (consequences d) Hc Hq) as [-> ->].
  now rewrite with_body_frontmatter.
Qed.

(** ** The store: create, then get *)

Lemma write_entry_split name text l :
  exists l1 l2,
    write_entry name text l = (l1 ++ (name, text) :: l2)%list
    /\ forall e, In e (l1 ++ l2)%list -> In e l.
Proof.
  induction l as [|[n t] l IH]; cbn [write_entry].
  - exists [], []. split; [reflexivity|]. intros e [].
  - destruct (String.eqb n name).
    + exists [], l. split; [reflexivity|]. intros e H. now right.
    + destruct IH as (l1 & l2 & -> & H). exists ((n, t) :: l1), l2.
      split; [reflexivity|]. intros e [<-|He]; [now left|right; now apply H].
Qed.

Lemma lookup_write_entry name text l :
  lookup_entry name (write_entry name text l) = Some text.
Proof.
  induction l as [|[n t] l IH]; cbn [write_entry lookup_entry].
  - now rewrite String.eqb_refl.
  - destruct (String.eqb n name) eqn:E; cbn [lookup_entry].
    + now rewrite String.eqb_refl.
    + now rewrite E.
Qed.

Lemma readdir_after_write fs st name text st' :
  readdir (writeFile (mkdir fs st) st name text) st'
  = if status_eqb st st' then Some (write_entry name text (listing fs st))
    else readdir fs st'.
Proof.
  destruct fs as [[a|] [s|] [r|] i], st, st'; reflexivity.
Qed.

Lemma readdir_set_index fs text st : readdir (set_index fs text) st = readdir fs st.
Proof. destruct st; reflexivity. Qed.

Lemma is_md_slug slug : is_md (slug ++ ".md") = true.
Proof. apply endsWith_append. Qed.

Lemma count_id_app wanted l1 l2 :
  count_id wanted (l1 ++ l2) = count_id wanted l1 + count_id wanted l2.
Proof. unfold count_id. now rewrite filter_app, length_app. Qed.

Lemma count_id_insert wanted key e l :
  count_id wanted (insert_desc key e l) = count_id wanted (e :: l).
Proof.
  induction l as [|y l IH]; [reflexivity|].
  cbn [insert_desc]. destruct (key y <=? key e)%Z; [reflexivity|].
  change (count_id wanted ([y] ++ insert_desc key e l)
          = count_id wanted ([e] ++ [y] ++ l)).
  rewrite !count_id_app, IH.
  change (e :: l) with ([e] ++ l)%list. rewrite count_id_app. lia.
Qed.

Lemma count_id_sort wanted key l :
  count_id wanted (sort_desc key l) = count_id wanted l.
Proof.
  induction l as [|e l IH]; [reflexivity|].
  cbn [sort_desc]. rewrite count_id_insert.
  change (count_id wanted ([e] ++ sort_desc key l) = count_id wanted ([e] ++ l)).
  now rewrite !count_id_app, IH.
Qed.

Section CreateThenGet.

Variable matter : string -> result (DecisionFrontmatter * string).
Variable matter_stringify : string -> DecisionFrontmatter -> string.
Variable getTime : string -> Z.
Variable JSON_stringify : DecisionIndex -> string.

Local Abbreviation parse := (Parser.parseDecision matter).
Local Abbreviation serialize := (Parser.serializeDecision matter_stringify).
Local Abbreviation get_files := (DecisionStore.get_files matter).
Local Abbreviation get := (DecisionStore.get matter).
Local Abbreviation index_files := (IndexBuilder.index_files matter).
Local Abbreviation index_dirs := (IndexBuilder.index_dirs matter).
Local Abbreviation create :=
  (DecisionStore.create matter matter_stringify getTime JSON_stringify).

(** Every [.md] file of a listing parses, to a decision with another id. *)
Let others (wanted : string) (files : Dir) : Prop :=
  forall name text, In (name, text) files -> is_md name = true ->
  exists d, parse text = Return d /\ id d <> wanted.

Lemma get_files_others wanted files :
  others wanted files -> get_files wanted files = Return None.
Proof.
  induction files as [|[n t] files IH]; intros H; [reflexivity|].
  cbn [DecisionStore.get_files].
  assert (H' : others wanted files) by (intros ? ? ?; apply H; now right).
  destruct (is_md n) eqn:Hmd; cbn [negb]; [|now apply IH].
  destruct (H n t (or_introl eq_refl) Hmd) as (d & -> & Hid). cbn [bind].
  apply String.eqb_neq in Hid. rewrite Hid. now apply IH.
Qed.

Lemma index_files_others wanted st files :
  others wanted files -> forall entries,
  exists entries', index_files st files entries = Return entries'
    /\ count_id wanted entries' = count_id wanted entries.
Proof.
  induction files as [|[n t] files IH]; intros H entries; [now exists entries|].
  cbn [IndexBuilder.index_files].
  assert (H' : others wanted files) by (intros ? ? ?; apply H; now right).
  destruct (is_md n) eqn:Hmd; cbn [negb]; [|now apply IH].
  destruct (H n t (or_introl eq_refl) Hmd) as (d & -> & Hid). cbn [bind].
  destruct (IH H' (entries ++ [IndexBuilder.entry_of st n d])%list) as (entries' & -> & Hc).
  exists entries'. split; [reflexivity|].
  rewrite Hc, count_id_app. unfold count_id at 2. cbn [filter IndexBuilder.entry_of entry_id].
  apply String.eqb_neq in Hid. rewrite Hid. cbn. lia.
Qed.

Lemma index_files_app st l1 l2 entries :
  index_files st (l1 ++ l2)%list entries
  = (entries1 <- index_files st l1 entries ;; index_files st l2 entries1).
Proof.
  revert entries. induction l1 as [|[n t] l1 IH]; intros entries; [reflexivity|].
  cbn [app IndexBuilder.index_files].
  destruct (is_md n); cbn [negb]; [|apply IH].
  destruct (parse t); cbn [bind]; [apply IH|reflexivity].
Qed.

Section Created.

Variables (now : string) (d : Decision) (fs : FS).
Hypothesis is_active : status d = active.
Hypothesis reads_back : parse (serialize d) = Return d.
Hypothesis fresh_id :
  forall st files, readdir fs st = Some files -> others (id d) files.

Let file := slugify (summary d) ++ ".md".
Let fs2 := writeFile (mkdir fs active) active file (serialize d).

Lemma others_listing st : others (id d) (listing fs st).
Proof.
  unfold listing. destruct (readdir fs st) as [files|] eqn:E.
  - now apply (fresh_id st).
  - intros ? ? [].
Qed.

Lemma listing_written :
  exists l1 l2,
    readdir fs2 active = Some (l1 ++ (file, serialize d) :: l2)%list
    /\ others (id d) l1 /\ others (id d) l2
    /\ readdir fs2 superseded = readdir fs superseded
    /\ readdir fs2 archived = readdir fs archived.
Proof.
  destruct (write_entry_split file (serialize d) (listing fs active))
    as (l1 & l2 & Hw & Hin).
  exists l1, l2. unfold fs2. rewrite !readdir_after_write. cbn [status_eqb].
  rewrite Hw. repeat split; auto.
  - intros n t H. apply (others_listing active). apply Hin. apply in_or_app. now left.
  - intros n t H. apply (others_listing active). apply Hin. apply in_or_app. now right.
Qed.

Lemma index_written :
  exists entries, index_dirs fs2 STATUS_DIRS [] = Return entries
    /\ count_id (id d) entries = 1.
Proof.
  destruct listing_written as (l1 & l2 & Ha & O1 & O2 & Hs & Hr).
  unfold STATUS_DIRS. cbn [IndexBuilder.index_dirs]. rewrite Ha, Hs, Hr.
  rewrite index_files_app.
  destruct (index_files_others _ active _ O1 []) as (e1 & -> & C1). cbn [bind].
  cbn [IndexBuilder.index_files]. unfold file at 1. rewrite is_md_slug. cbn [negb].
  rewrite reads_back. cbn [bind].
  destruct (index_files_others _ active _ O2 (e1 ++ [IndexBuilder.entry_of active file d])%list)
    as (e2 & -> & C2). cbn [bind].
  assert (C : count_id (id d) e2 = 1).
  { rewrite C2, count_id_app, C1. unfold count_id.
    cbn [filter IndexBuilder.entry_of entry_id]. now rewrite String.eqb_refl. }
  pose proof (others_listing superseded) as Os. pose proof (others_listing archived) as Or.
  unfold listing in Os, Or.
  destruct (readdir fs superseded) as [s|].
  - destruct (index_files_others _ superseded _ Os e2) as (e3 & -> & C3). cbn [bind].
    destruct (readdir fs archived) as [r|].
    + destruct (index_files_others _ archived _ Or e3) as (e4 & -> & C4). cbn [bind].
      exists e4. split; [reflexivity|congruence].
    + exists e3. split; [reflexivity|congruence].
  - destruct (readdir fs archived) as [r|].
    + destruct (index_files_others _ archived _ Or e2) as (e4 & -> & C4). cbn [bind].
      exists e4. split; [reflexivity|congruence].
    + exists e2. split; [reflexivity|congruence].
Qed.

(** C3, as the code has it.  Let [d] be an active decision that the parser
    reads back unchanged from its own serialization, and let every [.md]
    file of the store parse to a decision with another id.  Then [create]
    returns [d], and afterwards [get] finds [d] under its id, the file
    [active/<slug>.md] holds the serialization of [d], and the index written
    has exactly one entry with that id. *)
Theorem create_then_get :
  fst (create now d fs) = Return d
  /\ get (snd (create now d fs)) (id d) = Return (Some d)
  /\ readFile (snd (create now d fs)) active (slugify (summary d) ++ ".md")
     = Some (serialize d)
  /\ exists index,
       index_json (snd (create now d fs)) = Some (JSON_stringify index)
       /\ count_id (id d) (decisions index) = 1.
Proof.
  destruct index_written as (entries & Hi & Hc).
  destruct listing_written as (l1 & l2 & Ha & O1 & O2 & Hs & Hr).
  assert (E : create now d fs
              = (Return d,
                 set_index fs2
                   (JSON_stringify
                      (mkIndex 1 now (sort_desc (fun e => getTime (entry_created e)) entries))))).
  { unfold DecisionStore.create, DecisionStore.rebuildIndex, IndexBuilder.rebuildIndex.
    cbv zeta. rewrite is_active. fold file. fold fs2. now rewrite Hi. }
  rewrite E. cbn [fst snd]. split; [reflexivity|split; [|split]].
  - rewrite get_scan. unfold scan_order, listing. rewrite !readdir_set_index, Ha.
    rewrite <- app_assoc, get_files_app, (get_files_others _ _ O1). cbn [bind].
    cbn [app DecisionStore.get_files]. unfold file at 1. rewrite is_md_slug. cbn [negb].
    rewrite reads_back. cbn [bind]. now rewrite String.eqb_refl.
  - unfold readFile. rewrite readdir_set_index. unfold fs2.
    rewrite readdir_after_write. cbn [status_eqb]. apply lookup_write_entry.
  - eexists. split; [reflexivity|]. cbn [decisions]. now rewrite count_id_sort.
Qed.

End Created.

End CreateThenGet.

(** ** The store: queryByFilePath *)

Lemma In_insert_desc {A} (key : A -> Z) (x e : A) l :
  In x (insert_desc key e l) <-> x = e \/ In x l.
Proof.
  induction l as [|y l IH]; cbn [insert_desc].
  - cbn. intuition congruence.
  - destruct (key y <=? key e)%Z; cbn [In] in *; [intuition congruence|].
    rewrite IH. intuition congruence.
Qed.

Lemma In_sort_desc {A} (key : A -> Z) (x : A) l :
  In x (sort_desc key l) <-> In x l.
Proof.
  induction l as [|e l IH]; [reflexivity|].
  cbn [sort_desc]. rewrite In_insert_desc, IH. cbn [In]. intuition congruence.
Qed.

Section Query.

Variable matter : string -> result (DecisionFrontmatter * string).
Variable minimatch : string -> string -> bool.
Variable getTime : string -> Z.
Variable isAbsolute : string -> bool.
Variable relative : string -> string -> string.

Local Abbreviation parse := (Parser.parseDecision matter).
Local Abbreviation list_files := (DecisionStore.list_files matter minimatch).
Local Abbreviation list_dirs := (DecisionStore.list_dirs matter minimatch).
Local Abbreviation list_ := (DecisionStore.list_ matter minimatch getTime).
Local Abbreviation passes_scope := (DecisionStore.passes_scope minimatch).
Local Abbreviation queryByFilePath :=
  (DecisionStore.queryByFilePath matter minimatch getTime isAbsolute relative).

(** [list] keeps the decisions of the [.md] files that pass both filters. *)
Lemma list_files_spec options files : forall results out,
  list_files options files results = Return out ->
  forall d, In d out <->
    In d results
    \/ exists name text,
         In (name, text) files /\ is_md name = true /\ parse text = Return d
         /\ DecisionStore.passes_tags options d = true
         /\ passes_scope options d = true.
Proof.
  induction files as [|[n t] files IH]; intros results out H d.
  - injection H as <-. split; [now left|]. intros [H|(? & ? & [] & _)]. exact H.
  - cbn [DecisionStore.list_files] in H.
    assert (Skip : list_files options files results = Return out ->
                   (forall d', parse t = Return d' -> is_md n = true ->
                      DecisionStore.passes_tags options d' = true ->
                      passes_scope options d' = true -> False) ->
                   In d out <->
                   In d results
                   \/ exists name text,
                        In (name, text) ((n, t) :: files) /\ is_md name = true
                        /\ parse text = Return d
                        /\ DecisionStore.passes_tags options d = true
                        /\ passes_scope options d = true).
    { intros H' No. rewrite (IH _ _ H'). split.
      - intros [?|(name & text & Hin & ?)]; [now left|].
        right. exists name, text. split; [now right|assumption].
      - intros [?|(name & text & [[= -> ->]|Hin] & Hmd & Hp & Ht & Hs)]; [now left| |].
        + destruct (No d Hp Hmd Ht Hs).
        + right. exists name, text. auto. }
    destruct (is_md n) eqn:Hmd; cbn [negb] in H; [|apply Skip; [exact H|discriminate]].
    destruct (parse t) as [d0|e] eqn:Hp; cbn [bind] in H; [|discriminate H].
    destruct (DecisionStore.passes_tags options d0) eqn:Ht; cbn [negb] in H;
      [|apply Skip; [exact H|intros d' [= <-]; congruence]].
    destruct (passes_scope options d0) eqn:Hs; cbn [negb] in H;
      [|apply Skip; [exact H|intros d' [= <-]; congruence]].
    rewrite (IH _ _ H). rewrite in_app_iff. cbn [In]. split.
    + intros [[?|[<-|[]]]|(name & text & Hin & ?)].
      * now left.
      * right. exists n, t. split; [now left|auto].
      * right. exists name, text. split; [now right|assumption].
    + intros [?|(name & text & [[= -> ->]|Hin] & Hmd' & Hp' & Ht' & Hs')].
      * now left; left.
      * left; right; left. congruence.
      * right. exists name, text. auto.
Qed.

(** For a file path that is not empty once made relative, [queryByFilePath]
    returns the decisions stored under [active] of which some scope pattern
    matches the path, and only those. *)
Lemma queryByFilePath_matches root fs filePath found :
  let relativePath := if isAbsolute filePath then relative root filePath else filePath in
  relativePath <> "" ->
  queryByFilePath root fs filePath = Return found ->
  forall d, In d found <->
    exists name text,
      In (name, text) (listing fs active) /\ is_md name = true
      /\ parse text = Return d
      /\ existsb (fun pattern => minimatch relativePath pattern) (scope d) = true.
Proof.
  intros rel Hne H d.
  unfold DecisionStore.queryByFilePath, DecisionStore.list_ in H. fold rel in H.
  cbn [opt_status DecisionStore.list_dirs] in H. unfold listing.
  assert (Hs : forall d', passes_scope (mkOptions (Some active) None (Some rel)) d'
                          = existsb (fun pattern => minimatch rel pattern) (scope d')).
  { intros d'. unfold DecisionStore.passes_scope. cbn [opt_scope truthy].
    destruct rel; [congruence|reflexivity]. }
  destruct (readdir fs active) as [files|].
  - destruct (list_files _ files []) as [out|e] eqn:E; cbn [bind] in H; [|discriminate H].
    injection H as <-. rewrite In_sort_desc, (list_files_spec _ _ _ _ E). split.
    + intros [[]|(name & text & Hin & Hmd & Hp & _ & Hsc)].
      exists name, text. rewrite <- Hs. auto.
    + intros (name & text & Hin & Hmd & Hp & Hsc). right.
      exists name, text. rewrite Hs. auto.
  - cbn [bind] in H. injection H as <-. split; [intros []|intros (? & ? & [] & _)].
Qed.

Lemma list_files_no_scope tags files : forall results,
  list_files (mkOptions (Some active) tags (Some "")) files results
  = list_files (mkOptions (Some active) tags None) files results.
Proof.
  induction files as [|[n t] files IH]; intros results; [reflexivity|].
  cbn [DecisionStore.list_files].
  destruct (is_md n); cbn [negb]; [|apply IH].
  destruct (parse t) as [d|e]; cbn [bind]; [|reflexivity].
  unfold DecisionStore.passes_scope, DecisionStore.passes_tags.
  cbn [opt_scope opt_tags truthy negb]. now rewrite !IH.
Qed.

(** For a file path that is empty once made relative the scope filter is
    skipped: the answer is the list of all the active decisions. *)
Lemma queryByFilePath_empty root fs filePath :
  (if isAbsolute filePath then relative root filePath else filePath) = "" ->
  queryByFilePath root fs filePath = list_ fs (mkOptions (Some active) None None).
Proof.
  intros E. unfold DecisionStore.queryByFilePath. rewrite E.
  unfold DecisionStore.list_. cbn [opt_status DecisionStore.list_dirs].
  destruct (readdir fs active); [|reflexivity].
  now rewrite list_files_no_scope.
Qed.

End Query.

(** C2, where the code departs from it.  In a store whose only decision is
    active and has an empty scope, [queryByFilePath] answers the empty path
    with that decision, and the project root too, which [path.relative]
    turns into the empty path; a path with a name is answered with
    nothing. *)
Theorem queryByFilePath_empty_path_unfiltered (minimatch : string -> string -> bool) :
  let query :=
    DecisionStore.queryByFilePath Codec.matter minimatch stamp_time
      posix_isAbsolute relative_below "/proj" unscoped_store in
  query "" = Return [unscoped]
  /\ query "/proj" = Return [unscoped]
  /\ query "src/anything.ts" = Return []
  /\ query "/proj/src/anything.ts" = Return [].
Proof.
  cbv zeta. repeat split; reflexivity.
Qed.

(** ** Concrete runs *)


(** C1, as stated, fails: the parser trims what it captures, so a context
    that starts with blanks comes back without them, although the front
    matter and the body are handed back intact. *)
Lemma roundtrip_drops_indentation :
  Parser.matter_reads_back Codec.matter Codec.stringify indented
  /\ Parser.parseDecision Codec.matter (Parser.serializeDecision Codec.stringify indented)
     = Return (with_context sample (Some "Indented note."))
  /\ Parser.parseDecision Codec.matter (Parser.serializeDecision Codec.stringify indented)
     <> Return indented.
Proof.
  split; [reflexivity|split; [reflexivity|]]. intros H. discriminate H.
Qed.

Lemma sample_roundtrip_safe : roundtrip_safe sample.
Proof.
  split; intros t [= <-]; (split; [repeat split; discriminate|reflexivity]).
Qed.

Lemma parse_serialize_roundtrip_witness :
  Parser.parseDecision Codec.matter (Parser.serializeDecision Codec.stringify sample)
  = Return sample.
Proof.
  apply parse_serialize_roundtrip; [reflexivity|exact sample_roundtrip_safe].
Defined.

(** C3, as stated, fails for the same decision: it is active, the store is
    fresh, and [get] returns it with the context trimmed. *)
Lemma create_then_get_indented :
  let fs := snd (DecisionStore.create Codec.matter Codec.stringify stamp_time ids_text
                   "2026-02-12T09:30:00Z" indented fresh) in
  status indented = active
  /\ DecisionStore.get Codec.matter fs (id indented)
     = Return (Some (with_context sample (Some "Indented note.")))
  /\ DecisionStore.get Codec.matter fs (id indented) <> Return (Some indented).
Proof.
  cbv zeta. split; [reflexivity|split; [reflexivity|]]. intros H. discriminate H.
Qed.

Lemma create_then_get_witness :
  DecisionStore.get Codec.matter
    (snd (DecisionStore.create Codec.matter Codec.stringify stamp_time ids_text
            "2026-02-12T09:30:00Z" sample redis_store))
    (id sample)
  = Return (Some sample).
Proof.
  apply (create_then_get Codec.matter Codec.stringify stamp_time ids_text
           "2026-02-12T09:30:00Z" sample redis_store).
  - reflexivity.
  - reflexivity.
  - intros st files H name text Hin Hmd.
    destruct st; injection H as <-;
      [destruct Hin as [Heq|[]]|destruct Hin|destruct Hin].
    injection Heq as <- <-.
    exists redis. split; [reflexivity|discriminate].
Defined.


Lemma non_md_ignored_witness :
  DecisionStore.get Codec.matter
    (set_dir redis_store active [redis_file; ("index.json.bak", "corrupted!")])
    (id redis)
  = DecisionStore.get Codec.matter redis_store (id redis).
Proof.
  apply (non_md_ignored Codec.matter literal_match stamp_time posix_isAbsolute
           relative_below ids_text redis_store active [redis_file] []
           "index.json.bak" "corrupted!"); reflexivity.
Defined.

Lemma get_first_in_scan_order_witness :
  DecisionStore.get Codec.matter twin_store (id sample) = Return (Some sample).
Proof.
  apply (proj1 (get_first_in_scan_order Codec.matter twin_store (id sample))
           [] "use-postgresql-for-persistence.md"
           (Parser.serializeDecision Codec.stringify sample)
           [("use-sqlite-for-persistence.md",
             Parser.serializeDecision Codec.stringify archived_twin)]
           sample).
  - reflexivity.
  - intros name text [].
  - reflexivity.
  - reflexivity.
  - reflexivity.
Defined.

(** In [twin_store] the id of the sample is in [active] and in [archived];
    [get] returns the active decision. *)
Lemma get_prefers_active :
  DecisionStore.get Codec.matter twin_store (id sample) = Return (Some sample)
  /\ id archived_twin = id sample.
Proof. split; reflexivity. Qed.

(** * Further properties of the store *)

(** ** What an operation reads of the tree *)

Section Reads.

Variable matter : string -> result (DecisionFrontmatter * string).
Variable minimatch : string -> string -> bool.
Variable getTime : string -> Z.
Variable isAbsolute : string -> bool.
Variable relative : string -> string -> string.
Variable JSON_stringify : DecisionIndex -> string.

Local Abbreviation get := (DecisionStore.get matter).
Local Abbreviation list_ := (DecisionStore.list_ matter minimatch getTime).
Local Abbreviation queryByFilePath :=
  (DecisionStore.queryByFilePath matter minimatch getTime isAbsolute relative).
Local Abbreviation rebuildIndex := (IndexBuilder.rebuildIndex matter getTime JSON_stringify).

Section SameListings.

Variables fs1 fs2 : FS.
Hypothesis same : forall st, listing fs1 st = listing fs2 st.

Lemma get_dirs_listing wanted dirs :
  DecisionStore.get_dirs matter fs1 wanted dirs = DecisionStore.get_dirs matter fs2 wanted dirs.
Proof.
  induction dirs as [|s dirs IH]; [reflexivity|].
  cbn [DecisionStore.get_dirs]. rewrite IH. specialize (same s). unfold listing in same.
  destruct (readdir fs1 s), (readdir fs2 s); subst; reflexivity.
Qed.

Lemma list_dirs_listing options dirs : forall results,
  DecisionStore.list_dirs matter minimatch fs1 options dirs results
  = DecisionStore.list_dirs matter minimatch fs2 options dirs results.
Proof.
  induction dirs as [|s dirs IH]; intros results; [reflexivity|].
  cbn [DecisionStore.list_dirs]. specialize (same s). unfold listing in same.
  destruct (readdir fs1 s), (readdir fs2 s); subst; cbn [DecisionStore.list_files bind];
    try apply IH.
  destruct (DecisionStore.list_files _ _ _ _ _); cbn [bind]; [apply IH|reflexivity].
Qed.

Lemma index_dirs_listing dirs : forall entries,
  IndexBuilder.index_dirs matter fs1 dirs entries
  = IndexBuilder.index_dirs matter fs2 dirs entries.
Proof.
  induction dirs as [|s dirs IH]; intros entries; [reflexivity|].
  cbn [IndexBuilder.index_dirs]. specialize (same s). unfold listing in same.
  destruct (readdir fs1 s), (readdir fs2 s); subst; cbn [IndexBuilder.index_files bind];
    try apply IH.
  destruct (IndexBuilder.index_files _ _ _ _); cbn [bind]; [apply IH|reflexivity].
Qed.

Lemma answers_listing :
  (forall wanted, get fs1 wanted = get fs2 wanted)
  /\ (forall options, list_ fs1 options = list_ fs2 options)
  /\ (forall root filePath,
        queryByFilePath root fs1 filePath = queryByFilePath root fs2 filePath)
  /\ (forall now, fst (rebuildIndex now fs1) = fst (rebuildIndex now fs2)).
Proof.
  assert (L : forall options, list_ fs1 options = list_ fs2 options).
  { intros options. unfold DecisionStore.list_. now rewrite list_dirs_listing. }
  split; [|split; [|split]].
  - intros wanted. apply get_dirs_listing.
  - exact L.
  - intros root filePath. apply L.
  - intros now. unfold IndexBuilder.rebuildIndex. rewrite index_dirs_listing.
    destruct (IndexBuilder.index_dirs matter fs2 STATUS_DIRS []); reflexivity.
Qed.

End SameListings.

Lemma listing_set_index fs text st : listing (set_index fs text) st = listing fs st.
Proof. unfold listing. now rewrite readdir_set_index. Qed.

Lemma listing_init now fs st :
  listing (DecisionStore.init JSON_stringify now fs) st = listing fs st.
Proof. destruct fs as [[a|] [s|] [r|] [i|]], st; reflexivity. Qed.

(** X1.  No query reads [index.json]: whatever text the index file holds,
    [get], [list] and [queryByFilePath] answer the same, and [rebuildIndex]
    returns the same index and, when it returns, leaves the same tree. *)
Theorem index_never_read fs text :
  (forall wanted, get (set_index fs text) wanted = get fs wanted)
  /\ (forall options, list_ (set_index fs text) options = list_ fs options)
  /\ (forall root filePath,
        queryByFilePath root (set_index fs text) filePath
        = queryByFilePath root fs filePath)
  /\ (forall now,
        fst (rebuildIndex now (set_index fs text)) = fst (rebuildIndex now fs))
  /\ (forall now index,
        fst (rebuildIndex now fs) = Return index ->
        snd (rebuildIndex now (set_index fs text)) = snd (rebuildIndex now fs)).
Proof.
  pose proof (answers_listing _ _ (listing_set_index fs text)) as (G & L & Q & R).
  repeat split; auto.
  intros now index. unfold IndexBuilder.rebuildIndex.
  rewrite (index_dirs_listing _ _ (listing_set_index fs text)).
  destruct (IndexBuilder.index_dirs matter fs STATUS_DIRS []); [|discriminate].
  intros _. reflexivity.
Qed.

(** X2.  [init] changes no answer of a query: a missing status directory
    reads as an empty one, so [get], [list] and [queryByFilePath] answer the
    same before and after [init]. *)
Theorem init_changes_no_answer t fs :
  let fs1 := DecisionStore.init JSON_stringify t fs in
  (forall wanted, get fs1 wanted = get fs wanted)
  /\ (forall options, list_ fs1 options = list_ fs options)
  /\ (forall root filePath,
        queryByFilePath root fs1 filePath = queryByFilePath root fs filePath).
Proof.
  destruct (answers_listing _ _ (listing_init t fs)) as (G & L & Q & _).
  cbv zeta. auto.
Qed.

End Reads.

(** ** Listing: order, filters, files *)

Lemma insert_desc_sorted {A} (key : A -> Z) x l :
  latest_first key l -> latest_first key (insert_desc key x l).
Proof.
  unfold latest_first. induction 1 as [|y l Hs IH Hy]; cbn [insert_desc].
  - repeat constructor.
  - destruct (Z.leb_spec (key y) (key x)) as [Hle|Hlt].
    + constructor; [now constructor|]. constructor; [exact Hle|].
      eapply Forall_impl; [|exact Hy]. cbn. intros. lia.
    + constructor; [exact IH|].
      apply Forall_forall. intros z Hz. apply In_insert_desc in Hz as [->|Hz]; [lia|].
      now apply (proj1 (Forall_forall _ _) Hy).
Qed.

Lemma sort_desc_sorted {A} (key : A -> Z) l : latest_first key (sort_desc key l).
Proof.
  induction l as [|x l IH]; [constructor|]. now apply insert_desc_sorted.
Qed.

Lemma insert_desc_front {A} (key : A -> Z) x l :
  Forall (fun z => (key z <= key x)%Z) l -> insert_desc key x l = x :: l.
Proof.
  destruct l as [|y l]; [reflexivity|]. intros H. inversion_clear H as [|? ? Hy _].
  cbn [insert_desc]. now apply Z.leb_le in Hy as ->.
Qed.

Lemma filter_insert_desc {A} (key : A -> Z) (p : A -> bool) x l :
  latest_first key l ->
  filter p (insert_desc key x l)
  = if p x then insert_desc key x (filter p l) else filter p l.
Proof.
  unfold latest_first. induction 1 as [|y l Hs IH Hy]; cbn [insert_desc filter].
  - now destruct (p x).
  - destruct (Z.leb_spec (key y) (key x)) as [Hle|Hlt]; cbn [filter].
    + destruct (p x); [|reflexivity].
      symmetry. apply insert_desc_front.
      assert (F : Forall (fun z => (key z <= key x)%Z) (y :: l)).
      { constructor; [exact Hle|]. eapply Forall_impl; [|exact Hy]. cbn. intros. lia. }
      apply Forall_forall. intros z Hz.
      apply (proj1 (Forall_forall _ _) F).
      change (In z (filter p (y :: l))) in Hz. now apply filter_In in Hz.
    + rewrite IH. destruct (p y), (p x); cbn [insert_desc]; try reflexivity.
      now apply Z.leb_gt in Hlt as ->.
Qed.

Lemma filter_sort_desc {A} (key : A -> Z) (p : A -> bool) l :
  filter p (sort_desc key l) = sort_desc key (filter p l).
Proof.
  induction l as [|x l IH]; [reflexivity|].
  cbn [sort_desc filter]. rewrite filter_insert_desc by apply sort_desc_sorted.
  rewrite IH. now destruct (p x).
Qed.

Section Filters.

Variable matter : string -> result (DecisionFrontmatter * string).
Variable minimatch : string -> string -> bool.
Variable getTime : string -> Z.

Local Abbreviation parse := (Parser.parseDecision matter).
Local Abbreviation list_files := (DecisionStore.list_files matter minimatch).
Local Abbreviation list_dirs := (DecisionStore.list_dirs matter minimatch).
Local Abbreviation list_ := (DecisionStore.list_ matter minimatch getTime).
Local Abbreviation keeps := (passes minimatch).

Lemma list_files_filter options files : forall acc,
  list_files options files (filter (keeps options) acc)
  = (all <- list_files (unfiltered options) files acc ;;
     Return (filter (keeps options) all)).
Proof.
  induction files as [|[n t] files IH]; intros acc; [reflexivity|].
  cbn [DecisionStore.list_files].
  destruct (is_md n); cbn [negb]; [|apply IH].
  destruct (parse t) as [d|e]; cbn [bind]; [|reflexivity].
  change (DecisionStore.passes_tags (unfiltered options) d) with true.
  change (DecisionStore.passes_scope minimatch (unfiltered options) d) with true.
  cbn [negb]. rewrite <- IH, filter_app. cbn [filter]. unfold passes.
  destruct (DecisionStore.passes_tags options d),
    (DecisionStore.passes_scope minimatch options d); cbn [negb andb];
    rewrite ?app_nil_r; reflexivity.
Qed.

Lemma list_dirs_filter options fs dirs : forall acc,
  list_dirs fs options dirs (filter (keeps options) acc)
  = (all <- list_dirs fs (unfiltered options) dirs acc ;;
     Return (filter (keeps options) all)).
Proof.
  induction dirs as [|s dirs IH]; intros acc; [reflexivity|].
  cbn [DecisionStore.list_dirs].
  destruct (readdir fs s) as [files|]; [|apply IH].
  rewrite list_files_filter.
  destruct (list_files (unfiltered options) files acc); cbn [bind]; [apply IH|reflexivity].
Qed.

Lemma list_filters_commute fs options :
  list_ fs options
  = (all <- list_ fs (unfiltered options) ;;
     Return (filter (keeps options) all)).
Proof.
  unfold DecisionStore.list_. cbn [unfiltered opt_status].
  change (@nil Decision) with (filter (keeps options) []) at 1.
  rewrite list_dirs_filter.
  destruct (list_dirs fs (unfiltered options) _ []); cbn [bind]; [|reflexivity].
  now rewrite filter_sort_desc.
Qed.

End Filters.

Section DatedListing.

Variable matter : string -> result (DecisionFrontmatter * string).
Variable minimatch : string -> string -> bool.
Variable parseDate : string -> option Z.

Local Abbreviation list_ := (DecisionStore.list_ matter minimatch (time_of parseDate)).
Local Abbreviation keeps := (passes minimatch).


(** X4.  When the decisions [list] returns all carry a date in [created],
    they are ordered by that date, latest first. *)
Theorem list_latest_first fs options found :
  list_ fs options = Return found ->
  dated parseDate created found ->
  latest_first (fun d => time_of parseDate (created d)) found.
Proof.
  unfold DecisionStore.list_.
  destruct (DecisionStore.list_dirs matter minimatch fs options _ []);
    cbn [bind]; [|discriminate].
  intros [= <-] _. apply sort_desc_sorted.
Qed.

End DatedListing.

Section Listing.

Variable matter : string -> result (DecisionFrontmatter * string).
Variable minimatch : string -> string -> bool.
Variable getTime : string -> Z.

Local Abbreviation parse := (Parser.parseDecision matter).
Local Abbreviation list_files := (DecisionStore.list_files matter minimatch).
Local Abbreviation list_dirs := (DecisionStore.list_dirs matter minimatch).
Local Abbreviation list_ := (DecisionStore.list_ matter minimatch getTime).
Local Abbreviation keeps := (passes minimatch).

Lemma list_dirs_spec options fs dirs : forall acc out,
  list_dirs fs options dirs acc = Return out ->
  forall d, In d out <->
    In d acc
    \/ exists st name text,
         In st dirs /\ In (name, text) (listing fs st) /\ is_md name = true
         /\ parse text = Return d /\ keeps options d = true.
Proof.
  induction dirs as [|s dirs IH]; intros acc out H d.
  - injection H as <-. split; [now left|]. intros [?|(? & ? & ? & [] & _)]. assumption.
  - cbn [DecisionStore.list_dirs] in H.
    assert (Here : forall name text,
              In (name, text) (listing fs s) -> is_md name = true ->
              parse text = Return d -> keeps options d = true ->
              exists st name text,
                In st (s :: dirs) /\ In (name, text) (listing fs st) /\ is_md name = true
                /\ parse text = Return d /\ keeps options d = true).
    { intros name text ? ? ? ?. exists s, name, text. repeat split; auto. now left. }
    assert (Later : (exists st name text,
                       In st dirs /\ In (name, text) (listing fs st) /\ is_md name = true
                       /\ parse text = Return d /\ keeps options d = true) ->
                    exists st name text,
                      In st (s :: dirs) /\ In (name, text) (listing fs st) /\ is_md name = true
                      /\ parse text = Return d /\ keeps options d = true).
    { intros (st & name & text & Hin & ?). exists st, name, text. split; [now right|assumption]. }
    unfold listing in *. destruct (readdir fs s) as [files|] eqn:E.
    + destruct (list_files options files acc) as [mid|e] eqn:Hf; cbn [bind] in H;
        [|discriminate H].
      rewrite (IH _ _ H), (list_files_spec _ _ _ _ _ _ Hf). split.
      * intros [[?|(name & text & Hin & Hmd & Hp & Ht & Hs)]|Hl]; [now left| |right; auto].
        right. apply (Here name text); auto. unfold passes. now rewrite Ht, Hs.
      * intros [?|(st & name & text & [<-|Hin] & Hl & Hmd & Hp & Hpass)]; [now left; left| |].
        -- left. right. rewrite E in Hl. exists name, text.
           unfold passes in Hpass. apply andb_prop in Hpass as [? ?]. auto.
        -- right. exists st, name, text. auto.
    + rewrite (IH _ _ H). split.
      * intros [?|Hl]; [now left|right; auto].
      * intros [?|(st & name & text & [<-|Hin] & Hl & ?)]; [now left| |].
        -- rewrite E in Hl. destruct Hl.
        -- right. exists st, name, text. auto.
Qed.

(** X5.  The decisions [list] returns are those of the [.md] files of the
    directories it scans (the one of [options.status], or all three) that
    pass both filters: none is invented and none is left out. *)
Theorem list_exact fs options found :
  list_ fs options = Return found ->
  forall d, In d found <->
    exists st name text,
      (opt_status options = None \/ opt_status options = Some st)
      /\ In (name, text) (listing fs st) /\ is_md name = true
      /\ parse text = Return d /\ keeps options d = true.
Proof.
  unfold DecisionStore.list_.
  destruct (list_dirs fs options _ []) as [out|e] eqn:E; cbn [bind]; [|discriminate].
  intros [= <-] d. rewrite In_sort_desc, (list_dirs_spec _ _ _ _ _ E). split.
  - intros [[]|(st & name & text & Hin & H)]. exists st, name, text. split; [|exact H].
    destruct (opt_status options) as [s|]; [|now left].
    right. destruct Hin as [->|[]]. reflexivity.
  - intros (st & name & text & Hs & H). right. exists st, name, text. split; [|exact H].
    destruct Hs as [->| ->]; [|now left]. destruct st; cbn; auto.
Qed.

Lemma list_files_same_filters o1 o2 files :
  (forall d, DecisionStore.passes_tags o1 d = DecisionStore.passes_tags o2 d) ->
  (forall d, DecisionStore.passes_scope minimatch o1 d
             = DecisionStore.passes_scope minimatch o2 d) ->
  forall acc, list_files o1 files acc = list_files o2 files acc.
Proof.
  intros Ht Hs. induction files as [|[n t] files IH]; intros acc; [reflexivity|].
  cbn [DecisionStore.list_files].
  destruct (is_md n); cbn [negb]; [|apply IH].
  destruct (parse t) as [d|e]; cbn [bind]; [|reflexivity].
  now rewrite Ht, Hs, !IH.
Qed.

Lemma list_dirs_same_filters o1 o2 fs dirs :
  (forall d, DecisionStore.passes_tags o1 d = DecisionStore.passes_tags o2 d) ->
  (forall d, DecisionStore.passes_scope minimatch o1 d
             = DecisionStore.passes_scope minimatch o2 d) ->
  forall acc, list_dirs fs o1 dirs acc = list_dirs fs o2 dirs acc.
Proof.
  intros Ht Hs. induction dirs as [|s dirs IH]; intros acc; [reflexivity|].
  cbn [DecisionStore.list_dirs].
  destruct (readdir fs s) as [files|]; [|apply IH].
  rewrite (list_files_same_filters o1 o2 files Ht Hs).
  destruct (list_files o2 files acc); cbn [bind]; [apply IH|reflexivity].
Qed.

(** X6.  With a non-empty tag list, every decision [list] returns carries
    one of the wanted tags; an empty tag list filters nothing. *)
Theorem list_tags fs status wanted scope_path :
  (forall found,
     wanted <> [] ->
     list_ fs (mkOptions status (Some wanted) scope_path) = Return found ->
     forall d, In d found -> exists tag, In tag wanted /\ In tag (tags d))
  /\ list_ fs (mkOptions status (Some []) scope_path)
     = list_ fs (mkOptions status None scope_path).
Proof.
  split.
  - intros found Hne H d Hd. unfold DecisionStore.list_ in H.
    destruct (list_dirs fs _ _ []) as [out|e] eqn:E; cbn [bind] in H; [|discriminate H].
    injection H as <-. apply In_sort_desc in Hd.
    apply (list_dirs_spec _ _ _ _ _ E) in Hd as [[]|(st & name & text & _ & _ & _ & _ & Hp)].
    unfold passes, DecisionStore.passes_tags in Hp. cbn [opt_tags] in Hp.
    apply andb_prop in Hp as [Hp _].
    destruct wanted as [|t ts]; [congruence|].
    apply existsb_exists in Hp as (tag & Hin & Hp). exists tag. split; [exact Hin|].
    apply existsb_exists in Hp as (tag' & Hin' & Heq).
    apply String.eqb_eq in Heq. now subst tag'.
  - unfold DecisionStore.list_. cbn [opt_status].
    now rewrite (list_dirs_same_filters (mkOptions status (Some []) scope_path)
                   (mkOptions status None scope_path)).
Qed.

End Listing.

(** ** The index and the files *)

Lemma length_insert_desc {A} (key : A -> Z) x l :
  List.length (insert_desc key x l) = S (List.length l).
Proof.
  induction l as [|y l IH]; [reflexivity|].
  cbn [insert_desc]. destruct (key y <=? key x)%Z; cbn [List.length]; [reflexivity|].
  now rewrite IH.
Qed.

Lemma length_sort_desc {A} (key : A -> Z) l :
  List.length (sort_desc key l) = List.length l.
Proof.
  induction l as [|x l IH]; [reflexivity|].
  cbn [sort_desc]. rewrite length_insert_desc. cbn [List.length]. now rewrite IH.
Qed.

Section IndexFacts.

Variable matter : string -> result (DecisionFrontmatter * string).
Variable getTime : string -> Z.
Variable JSON_stringify : DecisionIndex -> string.

Local Abbreviation parse := (Parser.parseDecision matter).
Local Abbreviation index_files := (IndexBuilder.index_files matter).
Local Abbreviation index_dirs := (IndexBuilder.index_dirs matter).
Local Abbreviation rebuildIndex := (IndexBuilder.rebuildIndex matter getTime JSON_stringify).

Lemma index_files_spec st files : forall acc out,
  index_files st files acc = Return out ->
  (forall e, In e out <->
     In e acc
     \/ exists name text d,
          In (name, text) files /\ is_md name = true /\ parse text = Return d
          /\ e = IndexBuilder.entry_of st name d)
  /\ List.length out = List.length acc + List.length (md_files files).
Proof.
  induction files as [|[n t] files IH]; intros acc out H.
  - injection H as <-. split; [|cbn; lia].
    intros e. split; [now left|]. intros [?|(? & ? & ? & [] & _)]. assumption.
  - cbn [IndexBuilder.index_files] in H. unfold md_files. cbn [filter fst].
    destruct (is_md n) eqn:Hmd; cbn [negb] in H.
    + destruct (parse t) as [d|e0] eqn:Hp; cbn [bind] in H; [|discriminate H].
      destruct (IH _ _ H) as [Hin Hlen]. split.
      * intros e. rewrite Hin, in_app_iff. cbn [In]. split.
        -- intros [[?|[<-|[]]]|(name & text & d' & Hf & ?)].
           ++ now left.
           ++ right. exists n, t, d. split; [now left|auto].
           ++ right. exists name, text, d'. split; [now right|assumption].
        -- intros [?|(name & text & d' & [[= -> ->]|Hf] & Hmd' & Hp' & ->)].
           ++ now left; left.
           ++ left; right; left. congruence.
           ++ right. exists name, text, d'. auto.
      * rewrite Hlen, length_app. cbn [List.length]. fold (md_files files). lia.
    + destruct (IH _ _ H) as [Hin Hlen]. split; [|exact Hlen].
      intros e. rewrite Hin. split.
      * intros [?|(name & text & d' & Hf & ?)]; [now left|].
        right. exists name, text, d'. split; [now right|assumption].
      * intros [?|(name & text & d' & [[= -> ->]|Hf] & Hmd' & ?)]; [now left| |].
        -- congruence.
        -- right. exists name, text, d'. auto.
Qed.

Lemma index_dirs_spec fs dirs : forall acc out,
  index_dirs fs dirs acc = Return out ->
  (forall e, In e out <->
     In e acc
     \/ exists st name text d,
          In st dirs /\ In (name, text) (listing fs st) /\ is_md name = true
          /\ parse text = Return d /\ e = IndexBuilder.entry_of st name d)
  /\ List.length out
     = List.length acc + List.length (md_files (List.concat (map (listing fs) dirs))).
Proof.
  induction dirs as [|s dirs IH]; intros acc out H.
  - injection H as <-. split; [|unfold md_files; cbn [map List.concat filter List.length]; lia].
    intros e. split; [now left|]. intros [?|(? & ? & ? & ? & [] & _)]. assumption.
  - cbn [IndexBuilder.index_dirs] in H. cbn [map List.concat].
    unfold md_files. rewrite filter_app, length_app. fold (md_files (listing fs s)).
    fold (md_files (List.concat (map (listing fs) dirs))).
    destruct (readdir fs s) as [files|] eqn:E.
    + assert (Ls : listing fs s = files) by (unfold listing; now rewrite E).
      destruct (index_files s files acc) as [mid|e0] eqn:Hf; cbn [bind] in H;
        [|discriminate H].
      destruct (index_files_spec _ _ _ _ Hf) as [Min Mlen].
      destruct (IH _ _ H) as [Hin Hlen]. split; [|rewrite Ls; lia].
      intros e. rewrite Hin, Min. split.
      * intros [[?|(name & text & d & Hfl & ?)]|(st & name & text & d & Hd & ?)].
        -- now left.
        -- right. exists s, name, text, d. split; [now left|].
           unfold listing. rewrite E. auto.
        -- right. exists st, name, text, d. split; [now right|assumption].
      * intros [?|(st & name & text & d & [<-|Hd] & Hl & ?)].
        -- now left; left.
        -- left; right. unfold listing in Hl. rewrite E in Hl. exists name, text, d. auto.
        -- right. exists st, name, text, d. auto.
    + assert (Ls : listing fs s = []) by (unfold listing; now rewrite E).
      destruct (IH _ _ H) as [Hin Hlen]. split; [|rewrite Ls; cbn [md_files filter List.length]; lia].
      intros e. rewrite Hin. split.
      * intros [?|(st & name & text & d & Hd & ?)]; [now left|].
        right. exists st, name, text, d. split; [now right|assumption].
      * intros [?|(st & name & text & d & [<-|Hd] & Hl & ?)]; [now left| |].
        -- unfold listing in Hl. rewrite E in Hl. destruct Hl.
        -- right. exists st, name, text, d. auto.
Qed.

(** X7.  The index [rebuildIndex] returns has version 1 and the time of the
    call, is the text written to [index.json], and has exactly one entry for
    each [.md] file of the three directories: the id, summary, scope, tags,
    status and created of the decision in the file, and the path
    [<directory>/<file>].  When the entries all carry a date in [created],
    they are listed latest first. *)
Theorem rebuildIndex_exact parseDate now fs index fs' :
  IndexBuilder.rebuildIndex matter (time_of parseDate) JSON_stringify now fs
  = (Return index, fs') ->
  version index = 1
  /\ index_updated index = now
  /\ fs' = set_index fs (JSON_stringify index)
  /\ (dated parseDate entry_created (decisions index) ->
      latest_first (fun e => time_of parseDate (entry_created e)) (decisions index))
  /\ (forall e, In e (decisions index) <->
        exists st name text d,
          In (name, text) (listing fs st) /\ is_md name = true
          /\ parse text = Return d /\ e = IndexBuilder.entry_of st name d)
  /\ List.length (decisions index) = List.length (md_files (scan_order fs)).
Proof.
  unfold IndexBuilder.rebuildIndex.
  destruct (index_dirs fs STATUS_DIRS []) as [entries|e0] eqn:E; [|discriminate].
  intros [= <- <-]. cbn [version index_updated decisions].
  destruct (index_dirs_spec _ _ _ _ E) as [Hin Hlen].
  split; [reflexivity|]. split; [reflexivity|]. split; [reflexivity|].
  split; [intros _; apply sort_desc_sorted|]. split; [split|].
  - rewrite In_sort_desc, Hin.
    intros [[]|(st & name & text & d & _ & H)]. now exists st, name, text, d.
  - rewrite In_sort_desc, Hin.
    intros (st & name & text & d & H). right. exists st, name, text, d.
    split; [|exact H]. destruct st; cbn; auto.
  - rewrite length_sort_desc, Hlen. cbn [List.length map List.concat STATUS_DIRS].
    unfold scan_order. now rewrite app_nil_r.
Qed.

End IndexFacts.

(** ** Not found, overwritten, untouched *)

Lemma write_entry_twice name t1 t2 l :
  write_entry name t2 (write_entry name t1 l) = write_entry name t2 l.
Proof.
  induction l as [|[n t] l IH]; cbn [write_entry].
  - now rewrite String.eqb_refl.
  - destruct (String.eqb n name) eqn:E; cbn [write_entry].
    + now rewrite String.eqb_refl.
    + now rewrite E, IH.
Qed.

Lemma lookup_write_entry_other name other text l :
  other <> name -> lookup_entry other (write_entry name text l) = lookup_entry other l.
Proof.
  intros Hne. induction l as [|[n t] l IH]; cbn [write_entry lookup_entry].
  - apply String.eqb_neq in Hne. rewrite String.eqb_sym in Hne. now rewrite Hne.
  - destruct (String.eqb n name) eqn:E; cbn [lookup_entry].
    + apply String.eqb_eq in E. subst n.
      apply String.eqb_neq in Hne. rewrite String.eqb_sym in Hne. now rewrite Hne.
    + now rewrite IH.
Qed.

Section Written.

Variable matter : string -> result (DecisionFrontmatter * string).
Variable matter_stringify : string -> DecisionFrontmatter -> string.
Variable getTime : string -> Z.
Variable JSON_stringify : DecisionIndex -> string.

Local Abbreviation parse := (Parser.parseDecision matter).
Local Abbreviation serialize := (Parser.serializeDecision matter_stringify).
Local Abbreviation get := (DecisionStore.get matter).
Local Abbreviation create :=
  (DecisionStore.create matter matter_stringify getTime JSON_stringify).
Local Abbreviation others := (other_ids matter).

(** The tree [create] leaves, whether it returns or throws. *)
Lemma create_tree now d fs :
  exists fs', snd (create now d fs) = fs'
    /\ (forall st, readdir fs' st
                   = readdir (writeFile (mkdir fs (status d)) (status d)
                                (slugify (summary d) ++ ".md") (serialize d)) st)
    /\ (forall e, fst (create now d fs) = Raise e ->
                  index_json fs' = index_json fs).
Proof.
  unfold DecisionStore.create, DecisionStore.rebuildIndex, IndexBuilder.rebuildIndex.
  cbv zeta.
  destruct (IndexBuilder.index_dirs matter _ STATUS_DIRS []); cbn [fst snd];
    eexists; (split; [reflexivity|]); split.
  - intros st. apply readdir_set_index.
  - discriminate.
  - reflexivity.
  - intros _ _. destruct fs as [[a|] [s|] [r|] i], (status d); reflexivity.
Qed.

Lemma listing_create now d fs st :
  listing (snd (create now d fs)) st
  = if status_eqb (status d) st
    then write_entry (slugify (summary d) ++ ".md") (serialize d) (listing fs (status d))
    else listing fs st.
Proof.
  destruct (create_tree now d fs) as (fs' & -> & Hr & _).
  unfold listing at 1. rewrite Hr, readdir_after_write.
  destruct (status_eqb (status d) st); reflexivity.
Qed.

(** X8.  [create] touches one file.  When it returns, it returns the
    decision it was given and [<status>/<slug>.md] holds the serialization
    of that decision; whether it returns or throws, every other file of the
    tree reads as before; and when it throws, [index.json] is left as it
    was. *)
Theorem create_writes_one_file now d fs :
  (forall d',
     fst (create now d fs) = Return d' ->
     d' = d
     /\ readFile (snd (create now d fs)) (status d) (slugify (summary d) ++ ".md")
        = Some (serialize d))
  /\ (forall st name,
        (st, name) <> (status d, slugify (summary d) ++ ".md") ->
        readFile (snd (create now d fs)) st name = readFile fs st name)
  /\ (forall e, fst (create now d fs) = Raise e ->
        index_json (snd (create now d fs)) = index_json fs).
Proof.
  assert (Hd : forall d', fst (create now d fs) = Return d' -> d' = d).
  { unfold DecisionStore.create, DecisionStore.rebuildIndex, IndexBuilder.rebuildIndex.
    cbv zeta. destruct (IndexBuilder.index_dirs matter _ STATUS_DIRS []); cbn [fst];
      congruence. }
  destruct (create_tree now d fs) as (fs' & -> & Hr & Hi).
  split; [|split; [|exact Hi]].
  - intros d' Hret. split; [now apply Hd|].
    unfold readFile. rewrite Hr, readdir_after_write.
    replace (status_eqb (status d) (status d)) with true by now destruct (status d).
    apply lookup_write_entry.
  - intros st name Hne. unfold readFile. rewrite Hr, readdir_after_write.
    destruct (status_eqb (status d) st) eqn:E.
    + apply status_eqb_eq in E. subst st.
      rewrite lookup_write_entry_other by congruence.
      unfold listing. now destruct (readdir fs (status d)).
    + reflexivity.
Qed.

Lemma others_scan wanted fs :
  (forall st, others wanted (listing fs st)) -> others wanted (scan_order fs).
Proof.
  intros H name text Hin. unfold scan_order in Hin.
  apply in_app_or in Hin as [Hin|Hin]; [now apply (H active)|].
  apply in_app_or in Hin as [Hin|Hin]; [now apply (H superseded)|now apply (H archived)].
Qed.

Lemma scan_others wanted fs st :
  others wanted (scan_order fs) -> others wanted (listing fs st).
Proof.
  intros H name text Hin. apply H. unfold scan_order.
  destruct st; auto using in_or_app.
Qed.

Lemma get_none_others fs wanted :
  get fs wanted = Return None -> others wanted (scan_order fs).
Proof.
  rewrite get_scan. intros H name text. now apply (get_files_none matter wanted _ H).
Qed.

Lemma others_get_none fs wanted :
  others wanted (scan_order fs) -> get fs wanted = Return None.
Proof. rewrite get_scan. apply get_files_others. Qed.

Lemma index_dirs_others wanted fs :
  (forall st, others wanted (listing fs st)) ->
  forall dirs entries,
  exists out, IndexBuilder.index_dirs matter fs dirs entries = Return out
    /\ count_id wanted out = count_id wanted entries.
Proof.
  intros H. induction dirs as [|s dirs IH]; intros entries; [now exists entries|].
  cbn [IndexBuilder.index_dirs]. specialize (H s). unfold listing in H.
  destruct (readdir fs s) as [files|]; [|apply IH].
  destruct (index_files_others matter wanted s files H entries) as (mid & -> & Hc).
  cbn [bind]. destruct (IH mid) as (out & -> & Hc'). exists out. split; congruence.
Qed.

(** X9.  [get] answers "not found" exactly when every [.md] file of the
    three directories parses and none holds the wanted id. *)
Theorem get_not_found_iff fs wanted :
  get fs wanted = Return None <-> others wanted (scan_order fs).
Proof.
  split; [apply get_none_others|apply others_get_none].
Qed.

Lemma others_written wanted name text d l :
  parse text = Return d -> id d <> wanted -> others wanted l ->
  others wanted (write_entry name text l).
Proof.
  intros Hp Hid Hl n t Hin Hmd.
  destruct (write_entry_split name text l) as (l1 & l2 & Hw & Hsub).
  rewrite Hw in Hin. apply in_app_or in Hin as [Hin|[[= <- <-]|Hin]].
  - apply (Hl n t); [|exact Hmd]. apply Hsub, in_or_app. now left.
  - now exists d.
  - apply (Hl n t); [|exact Hmd]. apply Hsub, in_or_app. now right.
Qed.

(** X10.  Two decisions of one status whose summaries give the same slug
    share a file: the second [create] overwrites the first without a word.
    Afterwards the file holds the second decision, [get] no longer finds the
    first, and the second [create] has returned normally. *)
Theorem create_same_slug_overwrites now1 now2 d1 d2 fs :
  status d1 = status d2 ->
  slugify (summary d1) = slugify (summary d2) ->
  id d1 <> id d2 ->
  parse (serialize d2) = Return d2 ->
  others (id d1) (scan_order fs) ->
  let fs1 := snd (create now1 d1 fs) in
  let fs2 := snd (create now2 d2 fs1) in
  fst (create now2 d2 fs1) = Return d2
  /\ readFile fs2 (status d1) (slugify (summary d1) ++ ".md") = Some (serialize d2)
  /\ get fs2 (id d1) = Return None
  /\ get fs2 (id d2) <> Return None.
Proof.
  intros Hst Hslug Hid Hp Ho fs1 fs2.
  assert (L2 : forall st, listing fs2 st
                = if status_eqb (status d2) st
                  then write_entry (slugify (summary d2) ++ ".md") (serialize d2)
                         (listing fs (status d2))
                  else listing fs st).
  { intros st. unfold fs2, fs1. rewrite !listing_create, Hst, Hslug.
    replace (status_eqb (status d2) (status d2)) with true by now destruct (status d2).
    destruct (status_eqb (status d2) st); [apply write_entry_twice|reflexivity]. }
  assert (O2 : others (id d1) (scan_order fs2)).
  { apply others_scan. intros st. rewrite L2.
    destruct (status_eqb (status d2) st).
    - apply (others_written _ _ _ d2); auto using scan_others.
    - now apply scan_others. }
  assert (G1 : get fs2 (id d1) = Return None) by now apply others_get_none.
  split; [|split; [|split]].
  - unfold fs2. unfold DecisionStore.create, DecisionStore.rebuildIndex,
      IndexBuilder.rebuildIndex. cbv zeta.
    match goal with
    | |- context [IndexBuilder.index_dirs matter ?t STATUS_DIRS []] =>
        destruct (index_dirs_others (id d1) t) with (dirs := STATUS_DIRS)
          (entries := @nil DecisionIndexEntry) as (out & -> & _)
    end; [|reflexivity].
    intros st. apply scan_others.
    unfold fs2 in O2. destruct (create_tree now2 d2 fs1) as (fs' & E & Hr & _).
    rewrite E in O2. intros name text Hin. apply O2.
    revert Hin. unfold scan_order, listing. now rewrite !Hr.
  - rewrite Hst, Hslug. unfold fs2.
    destruct (create_tree now2 d2 fs1) as (fs' & -> & Hr & _).
    unfold readFile. rewrite Hr, readdir_after_write.
    replace (status_eqb (status d2) (status d2)) with true by now destruct (status d2).
    apply lookup_write_entry.
  - exact G1.
  - intros H. apply get_none_others in H.
    assert (Hin : In (slugify (summary d2) ++ ".md", serialize d2) (scan_order fs2)).
    { assert (Hl : In (slugify (summary d2) ++ ".md", serialize d2)
                     (listing fs2 (status d2))).
      { rewrite L2.
        replace (status_eqb (status d2) (status d2)) with true by now destruct (status d2).
        destruct (write_entry_split (slugify (summary d2) ++ ".md") (serialize d2)
                    (listing fs (status d2))) as (l1 & l2 & -> & _).
        apply in_or_app. right. now left. }
      unfold scan_order. destruct (status d2); auto using in_or_app. }
    destruct (H _ _ Hin (is_md_slug _)) as (d & Hd & Hne). congruence.
Qed.

End Written.

(** * Further properties of the parser *)

(** ** Slugs of slugs, slugs of short summaries *)

Lemma lower_char_slug c : slug_char c = true -> lower_char c = c.
Proof.
  destruct c as [[] [] [] [] [] [] [] []]; intros H;
    solve [reflexivity | discriminate H].
Qed.

Lemma toLowerCase_slug s : all_chars slug_char s = true -> toLowerCase s = s.
Proof.
  induction s as [|c r IH]; [reflexivity|]. cbn [all_chars toLowerCase].
  intros H. apply andb_prop in H as [Hc Hr]. now rewrite (lower_char_slug _ Hc), IH.
Qed.

Lemma replace_runs_kebab_id s : forall b,
  kebab s = true -> (b = true -> startsWith s "-" = false) -> replace_runs b s = s.
Proof.
  induction s as [|c r IH]; intros b H Hb; [reflexivity|].
  pose proof (kebab_tail _ _ H) as Ht. cbn [replace_runs].
  destruct (is_lower_alnum c) eqn:Ea.
  - rewrite IH; [reflexivity|exact Ht|discriminate].
  - assert (Hc : Ascii.eqb c hyphen = true).
    { cbn [kebab] in H. rewrite Ea in H. cbn [orb] in H.
      apply andb_prop in H as [H _]. now apply andb_prop in H. }
    destruct b.
    + specialize (Hb eq_refl). rewrite startsWith_hyphen in Hb. congruence.
    + apply Ascii.eqb_eq in Hc. subst c.
      rewrite IH; [reflexivity|exact Ht|]. intros _.
      eapply kebab_no_double; [exact H|reflexivity].
Qed.

Lemma strip_trailing_id s : endsWith s "-" = false -> strip_trailing_hyphen s = s.
Proof.
  induction s as [|c r IH]; [reflexivity|]. intros H.
  cbn [endsWith] in H. apply orb_false_elim in H as [Hs Hr].
  destruct r as [|c' r'].
  - cbn [strip_trailing_hyphen]. destruct (Ascii.eqb_spec c hyphen) as [->|]; [|reflexivity].
    discriminate Hs.
  - rewrite strip_trailing_cons by discriminate. now rewrite IH.
Qed.

Lemma strip_leading_id s : startsWith s "-" = false -> strip_leading_hyphen s = s.
Proof.
  destruct s as [|c r]; [reflexivity|]. rewrite startsWith_hyphen.
  cbn [strip_leading_hyphen]. now intros ->.
Qed.

Lemma slice0_all n : forall s, length s <= n -> slice0 n s = s.
Proof.
  induction n as [|n IH]; intros [|c r] H; try reflexivity.
  - cbn in H. lia.
  - rewrite slice0_cons, IH; [reflexivity|cbn in H; lia].
Qed.

Lemma slugify_ends s :
  endsWith (slugify s) "-" = false /\ length (slugify s) <= 60.
Proof.
  unfold slugify, strip_edge_hyphens. split.
  - apply strip_trailing_end, slice0_kebab, strip_trailing_kebab.
    apply strip_leading_kebab, replace_runs_kebab.
  - etransitivity; [apply strip_trailing_length|apply slice0_length].
Qed.

(** X11.  [slugify] is idempotent: a slug is its own slug. *)
Theorem slugify_idempotent s : slugify (slugify s) = slugify s.
Proof.
  destruct (slugify_kebab s) as [K H]. destruct (slugify_ends s) as [E L].
  set (t := slugify s) in *. unfold slugify, strip_edge_hyphens.
  rewrite (toLowerCase_slug t (kebab_chars t K)).
  rewrite (replace_runs_kebab_id t false K) by discriminate.
  rewrite (strip_leading_id t H), (strip_trailing_id t E).
  rewrite (slice0_all 60 t L). apply (strip_trailing_id t E).
Qed.

Lemma strip_trailing_fixed s : strip_trailing_hyphen s = s -> endsWith s "-" = false.
Proof.
  induction s as [|c r IH]; [reflexivity|].
  destruct r as [|c' r'].
  - cbn [strip_trailing_hyphen endsWith]. unfold hyphen.
    destruct (Ascii.eqb_spec c "-"%char) as [->|Hc]; [discriminate|]. intros _.
    rewrite orb_false_r. apply String.eqb_neq. congruence.
  - rewrite strip_trailing_cons by easy. intros [= H]. specialize (IH H).
    cbn [endsWith] in *. rewrite IH, orb_false_r.
    apply String.eqb_neq. intros E. apply (f_equal length) in E. discriminate E.
Qed.

Lemma replace_runs_length s : forall b, length (replace_runs b s) <= length s.
Proof.
  induction s as [|c r IH]; intros b; [reflexivity|].
  cbn [replace_runs]. destruct (is_lower_alnum c); [|destruct b]; cbn [length];
    try (specialize (IH false); lia); specialize (IH true); lia.
Qed.

Lemma strip_leading_length s : length (strip_leading_hyphen s) <= length s.
Proof.
  destruct s as [|c r]; [reflexivity|]. cbn [strip_leading_hyphen].
  destruct (Ascii.eqb c hyphen); cbn [length]; lia.
Qed.

(** X12.  The slug shown by [record_decision] is the slug of the file
    exactly when it does not end in a hyphen, that is when the cut at 60
    characters leaves none at the end; and it is the slug of the file for
    every summary whose lower-case form has at most 60 characters. *)
Theorem short_summary_same_slug s :
  (slugifyForDisplay s = slugify s <-> endsWith (slugifyForDisplay s) "-" = false)
  /\ (length (toLowerCase s) <= 60 -> slugifyForDisplay s = slugify s).
Proof.
  assert (E : slugify s = strip_trailing_hyphen (slugifyForDisplay s)) by reflexivity.
  split.
  - rewrite E. split.
    + intros H. now apply strip_trailing_fixed.
    + intros H. symmetry. now apply strip_trailing_id.
  - intros H. unfold slugify, slugifyForDisplay, strip_edge_hyphens.
    set (x := replace_runs false (toLowerCase s)).
    assert (K : kebab (strip_leading_hyphen x) = true).
    { apply strip_leading_kebab, replace_runs_kebab. }
    assert (L : length (strip_trailing_hyphen (strip_leading_hyphen x)) <= 60).
    { pose proof (strip_trailing_length (strip_leading_hyphen x)).
      pose proof (strip_leading_length x).
      pose proof (replace_runs_length (toLowerCase s) false).
      unfold x in *. lia. }
    rewrite (slice0_all 60 _ L). symmetry.
    apply strip_trailing_id, strip_trailing_end, K.
Qed.

(** ** What the parser makes of a body *)

Lemma trimEnd_idempotent s : trimEnd (trimEnd s) = trimEnd s.
Proof.
  induction s as [|c r IH]; [reflexivity|]. cbn [trimEnd].
  destruct (trimEnd r) as [|c' r'] eqn:E.
  - destruct (is_space c) eqn:Ec; [reflexivity|]. cbn [trimEnd]. now rewrite Ec.
  -
    change (trimEnd (String c (String c' r')))
      with (match trimEnd (String c' r') with
            | "" => if is_space c then "" else String c ""
            | r0 => String c r0
            end).
    now rewrite IH.
Qed.

Lemma trimEnd_head c r :
  is_space c = false -> exists r', trimEnd (String c r) = String c r'.
Proof.
  intros H. cbn [trimEnd]. destruct (trimEnd r) as [|c' r'].
  - rewrite H. now exists "".
  - now exists (String c' r').
Qed.

Lemma trimStart_head s :
  trimStart s = "" \/ exists c r, trimStart s = String c r /\ is_space c = false.
Proof.
  induction s as [|c r IH]; [now left|]. cbn [trimStart].
  destruct (is_space c) eqn:E; [exact IH|]. right. now exists c, r.
Qed.

Lemma trim_idempotent s : trim (trim s) = trim s.
Proof.
  unfold trim. destruct (trimStart_head s) as [->|(c & r & -> & Hc)]; [reflexivity|].
  destruct (trimEnd_head c r Hc) as (r' & E). rewrite E.
  cbn [trimStart]. rewrite Hc, <- E. apply trimEnd_idempotent.
Qed.

Lemma match_section_absent h : forall content,
  includes content h = false -> match_section h content = None.
Proof.
  induction content as [|c r IH]; intros H; rewrite match_section_eq.
  - cbn [includes] in H. apply orb_false_elim in H as [-> _]. reflexivity.
  - cbn [includes] in H. apply orb_false_elim in H as [-> Hr]. now apply IH.
Qed.

Section Parsed.

Variable matter : string -> result (DecisionFrontmatter * string).

Local Abbreviation parse := (Parser.parseDecision matter).

(** X13.  Whatever the text, the context and the consequences of a parsed
    decision have no white space at either end; and the parser fails only
    where the front-matter library does. *)
Theorem parsed_sections_trimmed markdown :
  (forall d, parse markdown = Return d ->
     (forall c, context d = Some c -> trim c = c)
     /\ (forall q, consequences d = Some q -> trim q = q))
  /\ (forall e, parse markdown = Raise e <-> matter markdown = Raise e).
Proof.
  unfold Parser.parseDecision. destruct (matter markdown) as [[fm content]|e0]; cbn [bind].
  - split; [|intros e; split; discriminate].
    intros d [= <-]. cbn [with_body context consequences]. split.
    + destruct (match_section "## Context" content); cbn [option_map]; [|discriminate].
      intros c [= <-]. apply trim_idempotent.
    + destruct (match_section "## Consequences" content); cbn [option_map]; [|discriminate].
      intros q [= <-]. apply trim_idempotent.
  - split; [discriminate|]. intros e. destruct e0, e. split; reflexivity.
Qed.

(** X14.  A body in which a heading does not occur leaves that field unset,
    not empty: without ["## Context"] there is no context, without
    ["## Consequences"] there are no consequences. *)
Theorem absent_heading_unset markdown fm content :
  matter markdown = Return (fm, content) ->
  exists d, parse markdown = Return d
    /\ (includes content "## Context" = false -> context d = None)
    /\ (includes content "## Consequences" = false -> consequences d = None).
Proof.
  intros H. unfold Parser.parseDecision. rewrite H. cbn [bind].
  eexists. split; [reflexivity|]. cbn [with_body context consequences].
  split; intros Hi; now rewrite (match_section_absent _ _ Hi).
Qed.

(** X15.  The two sections may stand in either order: a body with the
    consequences first and the context second is read as the same two
    texts. *)
Theorem sections_in_either_order markdown fm c q :
  matter markdown
  = Return (fm, nl ++ "## Consequences" ++ nl ++ nl ++ q ++ nl
                ++ nl ++ "## Context" ++ nl ++ nl ++ c ++ nl) ->
  clean_text c -> clean_text q -> includes q "## Context" = false ->
  parse markdown = Return (with_body fm (Some c) (Some q)).
Proof.
  intros H Cc Cq Hq. unfold Parser.parseDecision. rewrite H. cbn [bind]. do 2 f_equal.
  - rewrite context_not_in_consequences by assumption.
    rewrite match_section_skip_nl by reflexivity.
    change (nl ++ "## Context" ++ nl ++ nl ++ c ++ nl)
      with (nl ++ "## Context" ++ nl ++ nl ++ c ++ nl ++ "").
    rewrite read_section by (assumption || reflexivity || discriminate).
    change (lazy_until_heading (nl ++ "")) with "". rewrite append_nil_r.
    cbn [option_map]. f_equal. apply Cc.
  - rewrite read_section by (assumption || reflexivity || discriminate).
    cbn [option_map]. f_equal.
    replace (lazy_until_heading (nl ++ nl ++ "## Context" ++ nl ++ nl ++ c ++ nl))
      with nl by reflexivity.
    now apply trim_clean_newline.
Qed.

End Parsed.

(** * Properties of the command line and of the protocol tools *)

(** ** Lists and ids *)

Lemma split_comma_nonempty s : Text.split_comma s <> [].
Proof.
  destruct s as [|c r]; [discriminate|]. cbn [Text.split_comma].
  destruct (Ascii.eqb c ","); [discriminate|].
  destruct (Text.split_comma r); discriminate.
Qed.

Lemma join_split_comma s : Text.join "," (Text.split_comma s) = s.
Proof.
  unfold Text.join. induction s as [|c r IH]; [reflexivity|].
  cbn [Text.split_comma]. pose proof (split_comma_nonempty r) as Hne.
  destruct (Ascii.eqb_spec c ",") as [->|Hc].
  - destruct (Text.split_comma r) as [|p ps]; [congruence|].
    change (String.concat "," ("" :: p :: ps)) with ("," ++ String.concat "," (p :: ps)).
    now rewrite IH.
  - destruct (Text.split_comma r) as [|p ps]; [congruence|].
    rewrite <- IH. destruct ps; reflexivity.
Qed.

(** X16.  The comma lists of the command line: splitting loses nothing
    (joining the pieces with commas gives the text back), every entry is
    trimmed, and the list is never empty, so that a decision recorded from
    the command line never has an empty scope; an empty [--tags] text gives
    [record] no tags, but gives [list] the one tag [""]. *)
Theorem cli_comma_lists :
  (forall text,
     Text.join "," (Text.split_comma text) = text
     /\ Cli.parse_list text <> []
     /\ forall entry, In entry (Cli.parse_list text) -> trim entry = entry)
  /\ (forall iso short opts, scope (Cli.decision_of iso short opts) <> [])
  /\ (forall iso short opts,
        Cli.o_tags_empty opts = true -> tags (Cli.decision_of iso short opts) = [])
  /\ (forall status, opt_tags (Cli.list_options status (Some "")) = Some [""]).
Proof.
  assert (N : forall text, Cli.parse_list text <> []).
  { intros text H. apply map_eq_nil in H. now apply split_comma_nonempty in H. }
  repeat split.
  - apply join_split_comma.
  - apply N.
  - intros entry H. apply in_map_iff in H as (piece & <- & _). apply trim_idempotent.
  - intros iso short opts. apply N.
  - intros iso short opts H. unfold Cli.o_tags_empty in H. apply String.eqb_eq in H.
    cbn [Cli.decision_of tags]. now rewrite H.
Qed.

Lemma cli_comma_lists_witness :
  tags (Cli.decision_of "2026-02-12T09:30:00.000Z" "abc123" postgres_options) = [].
Proof.
  apply (proj1 (proj2 (proj2 cli_comma_lists))). reflexivity.
Defined.

(** X17.  For a clock text that starts with a date [YYYY-MM-DD], as
    [toISOString] gives it, the new id is ["dec_"], the eight characters of
    the date, ["_"] and the random suffix. *)
Theorem new_id_shape year month day rest short :
  length year = 4 -> length month = 2 -> length day = 2 ->
  all_chars (fun c => negb (Ascii.eqb c hyphen)) (year ++ month ++ day) = true ->
  new_id (year ++ "-" ++ month ++ "-" ++ day ++ rest) short
  = "dec_" ++ year ++ month ++ day ++ "_" ++ short.
Proof.
  intros Hy Hm Hd H.
  destruct year as [|y1 [|y2 [|y3 [|y4 [|? ?]]]]]; try discriminate Hy.
  destruct month as [|m1 [|m2 [|? ?]]]; try discriminate Hm.
  destruct day as [|d1 [|d2 [|? ?]]]; try discriminate Hd.
  cbn [append all_chars] in H.
  repeat (apply andb_prop in H as [?%negb_true_iff H]).
  unfold new_id, slice0. cbn [append substring Text.remove_hyphens].
  repeat match goal with E : Ascii.eqb _ hyphen = false |- _ => rewrite E; clear E end.
  replace (substring 0 0 rest) with "" by (destruct rest; reflexivity).
  reflexivity.
Qed.

Lemma new_id_shape_witness :
  new_id "2026-02-12T09:30:00.000Z" "abc123" = "dec_20260212_abc123".
Proof.
  apply (new_id_shape "2026" "02" "12" "T09:30:00.000Z" "abc123"); reflexivity.
Defined.

(** ** The tools and the store *)

Lemma init_fixed JSON_stringify t fs :
  (forall st, readdir fs st <> None) -> index_json fs <> None ->
  DecisionStore.init JSON_stringify t fs = fs.
Proof.
  intros Hd Hi. pose proof (Hd active). pose proof (Hd superseded). pose proof (Hd archived).
  destruct fs as [[a|] [s|] [r|] [i|]]; cbn in *; congruence.
Qed.

Section ToolFacts.

Variable matter : string -> result (DecisionFrontmatter * string).
Variable matter_stringify : string -> DecisionFrontmatter -> string.
Variable minimatch : string -> string -> bool.
Variable getTime : string -> Z.
Variable isAbsolute : string -> bool.
Variable relative : string -> string -> string.
Variable JSON_stringify : DecisionIndex -> string.

Local Abbreviation parse := (Parser.parseDecision matter).
Local Abbreviation serialize := (Parser.serializeDecision matter_stringify).
Local Abbreviation get := (DecisionStore.get matter).
Local Abbreviation init := (DecisionStore.init JSON_stringify).
Local Abbreviation create :=
  (DecisionStore.create matter matter_stringify getTime JSON_stringify).
Local Abbreviation queryByFilePath :=
  (DecisionStore.queryByFilePath matter minimatch getTime isAbsolute relative).
Local Abbreviation others := (other_ids matter).
Local Abbreviation get_decision := (Tools.get_decision matter JSON_stringify).
Local Abbreviation record_decision :=
  (Tools.record_decision matter matter_stringify getTime JSON_stringify).
Local Abbreviation query_decisions :=
  (Tools.query_decisions matter minimatch getTime isAbsolute relative JSON_stringify).

Lemma scan_order_init t fs : scan_order (init t fs) = scan_order fs.
Proof. unfold scan_order. now rewrite !listing_init. Qed.

(** X18.  When every [.md] file parses and none holds the wanted id, also in
    a project without any decision tree, [get_decision] answers
    ["Decision not found: <id>"], and leaves the tree as [init] makes it. *)
Theorem get_decision_not_found t wanted fs :
  others wanted (scan_order fs) ->
  get_decision t wanted fs = (Return ("Decision not found: " ++ wanted), init t fs).
Proof.
  intros H. unfold Tools.get_decision.
  rewrite (others_get_none matter (init t fs) wanted); [reflexivity|].
  now rewrite scan_order_init.
Qed.

(** What [create] does with an active decision that reads back, in a store
    whose files parse to other ids. *)
Lemma create_active_found now d fs :
  status d = active -> parse (serialize d) = Return d ->
  others (id d) (scan_order fs) ->
  exists text,
    create now d fs
    = (Return d,
       set_index (writeFile (mkdir fs active) active (slugify (summary d) ++ ".md")
                    (serialize d)) text)
    /\ get (snd (create now d fs)) (id d) = Return (Some d).
Proof.
  intros Ha Hp Ho.
  assert (F : forall st files, readdir fs st = Some files -> others (id d) files).
  { intros st files E. pose proof (scan_others matter (id d) fs st Ho) as H.
    unfold listing in H. now rewrite E in H. }
  destruct (index_written matter matter_stringify d fs Hp F) as (entries & Hi & _).
  cbv zeta in Hi.
  assert (E : create now d fs
              = (Return d,
                 set_index
                   (writeFile (mkdir fs active) active (slugify (summary d) ++ ".md")
                      (serialize d))
                   (JSON_stringify
                      (mkIndex 1 now (sort_desc (fun e => getTime (entry_created e)) entries))))).
  { unfold DecisionStore.create, DecisionStore.rebuildIndex, IndexBuilder.rebuildIndex.
    cbv zeta. rewrite Ha. now rewrite Hi. }
  eexists. split; [exact E|]. rewrite E. cbn [snd].
  rewrite get_scan. unfold scan_order, listing.
  rewrite !readdir_set_index, !readdir_after_write. cbn [status_eqb].
  destruct (write_entry_split (slugify (summary d) ++ ".md") (serialize d)
              (listing fs active)) as (l1 & l2 & -> & Hsub).
  rewrite <- app_assoc, get_files_app.
  rewrite (get_files_others matter (id d) l1).
  - cbn [bind app DecisionStore.get_files]. rewrite is_md_slug. cbn [negb].
    rewrite Hp. cbn [bind]. now rewrite String.eqb_refl.
  - intros n t Hin. apply (scan_others matter (id d) fs active Ho).
    apply Hsub, in_or_app. now left.
Qed.

(** X19.  Record, then get: when the decision built from the arguments
    reads back from its serialization and the files of the store parse to
    other ids, [record_decision] answers with the id, and [get_decision]
    for that id then renders the decision recorded, changing nothing. *)
Theorem record_then_get_decision t0 iso t1 short args t2 fs :
  let d := Tools.decision_of iso short args in
  parse (serialize d) = Return d ->
  others (id d) (scan_order fs) ->
  exists fs',
    record_decision t0 iso t1 short args fs
    = (Return ("Decision recorded: **" ++ Tools.a_summary args ++ "**" ++ nl
               ++ "ID: " ++ new_id iso short ++ nl
               ++ "File: " ++ Server.confirmation_path (Tools.a_summary args)), fs')
    /\ get_decision t2 (new_id iso short) fs' = (Return (Tools.render_decision d), fs').
Proof.
  intros d Hp Ho. unfold Tools.record_decision. fold d.
  destruct (create_active_found t1 d (init t0 fs) eq_refl Hp) as (text & E & G).
  { now rewrite scan_order_init. }
  rewrite E in G |- *. cbn [snd] in G. eexists. split; [reflexivity|].
  unfold Tools.get_decision. rewrite init_fixed.
  - change (new_id iso short) with (id d). now rewrite G.
  - intros st. destruct fs as [[a|] [s|] [r|] [i|]], st; discriminate.
  - discriminate.
Qed.

Lemma list_files_total options files :
  all_parse matter files -> forall acc,
  exists out, DecisionStore.list_files matter minimatch options files acc = Return out.
Proof.
  induction files as [|[n t] files IH]; intros H acc; [now exists acc|].
  cbn [DecisionStore.list_files].
  assert (H' : all_parse matter files) by (intros ? ? ?; apply H; now right).
  destruct (is_md n) eqn:Hmd; cbn [negb]; [|now apply IH].
  destruct (H n t (or_introl eq_refl) Hmd) as (d & ->). cbn [bind].
  destruct (negb _); [now apply IH|]. destruct (negb _); now apply IH.
Qed.


End ToolFacts.

Section Answers.

Variable matter : string -> result (DecisionFrontmatter * string).
Variable minimatch : string -> string -> bool.
Variable parseDate : string -> option Z.
Variable isAbsolute : string -> bool.
Variable relative : string -> string -> string.
Variable JSON_stringify : DecisionIndex -> string.

Local Abbreviation parse := (Parser.parseDecision matter).
Local Abbreviation init := (DecisionStore.init JSON_stringify).
Local Abbreviation list_ := (DecisionStore.list_ matter minimatch (time_of parseDate)).
Local Abbreviation queryByFilePath :=
  (DecisionStore.queryByFilePath matter minimatch (time_of parseDate) isAbsolute relative).
Local Abbreviation query_decisions :=
  (Tools.query_decisions matter minimatch (time_of parseDate) isAbsolute relative
     JSON_stringify).
Local Abbreviation query_entry := (Tools.query_entry (time_of parseDate)).

Lemma queryByFilePath_returns root fs filePath :
  all_parse matter (listing fs active) ->
  exists found, queryByFilePath root fs filePath = Return found.
Proof.
  intros A. unfold DecisionStore.queryByFilePath, DecisionStore.list_.
  cbn [opt_status DecisionStore.list_dirs]. unfold listing in A.
  destruct (readdir fs active) as [files|]; [|cbn [bind]; eauto].
  destruct (list_files_total matter minimatch
              (mkOptions (Some active) None
                 (Some (if isAbsolute filePath then relative root filePath else filePath)))
              files A []) as (out & ->).
  cbn [bind]. eauto.
Qed.


End Answers.

(** ** Ages at the edges *)

(** X22.  A decision less than a minute old, or dated in the future, is
    ["just now"]; one that is 28 or 29 days old is ["0mo ago"], since four
    weeks are no longer weeks and months are counted in 30 days. *)
Theorem relative_age_edges (getTime : string -> Z) (now : Z) (iso : string) :
  let elapsed := (now - getTime iso)%Z in
  ((elapsed < 60000)%Z -> Server.getRelativeTime getTime now iso = "just now")
  /\ ((28 * 86400000 <= elapsed < 30 * 86400000)%Z ->
      Server.getRelativeTime getTime now iso = "0mo ago").
Proof.
  cbv zeta. unfold Server.getRelativeTime. cbv zeta.
  rewrite !div_ltb by lia. split; intros H.
  - destruct (Z.ltb_spec (now - getTime iso) (60000 * 1)); [reflexivity|lia].
  - repeat match goal with
      | |- context [(?a <? ?b)%Z] => destruct (Z.ltb_spec a b); [lia|]
      end.
    rewrite !Z.div_div by lia. rewrite Z.div_small by lia. reflexivity.
Qed.

(** ** Concrete runs of the further properties *)

Lemma index_never_read_witness :
  snd (IndexBuilder.rebuildIndex Codec.matter stamp_time ids_text "2026-02-12T09:30:00Z"
         (set_index redis_store "corrupted!"))
  = snd (IndexBuilder.rebuildIndex Codec.matter stamp_time ids_text "2026-02-12T09:30:00Z"
           redis_store).
Proof.
  eapply (index_never_read Codec.matter literal_match stamp_time posix_isAbsolute
            relative_below ids_text redis_store "corrupted!").
  reflexivity.
Defined.


Lemma list_latest_first_witness :
  latest_first (fun d => time_of stamp_date (created d)) [sample; older].
Proof.
  apply (list_latest_first Codec.matter literal_match stamp_date dated_store
           (mkOptions None None None)).
  - reflexivity.
  - intros x [<-|[<-|[]]]; discriminate.
Defined.

Lemma list_exact_witness :
  In redis [redis] <->
  exists st name text,
    (@None DecisionStatus = None \/ @None DecisionStatus = Some st)
    /\ In (name, text) (listing redis_store st) /\ is_md name = true
    /\ Parser.parseDecision Codec.matter text = Return redis
    /\ passes literal_match (mkOptions None None None) redis = true.
Proof.
  apply (list_exact Codec.matter literal_match stamp_time redis_store
           (mkOptions None None None) [redis]).
  reflexivity.
Defined.

Lemma list_tags_witness : exists tag, In tag ["caching"] /\ In tag (tags redis).
Proof.
  apply (proj1 (list_tags Codec.matter literal_match stamp_time redis_store None
                  ["caching"] None) [redis]).
  - discriminate.
  - reflexivity.
  - now left.
Defined.

Lemma rebuildIndex_exact_witness :
  List.length [IndexBuilder.entry_of active "use-redis-for-caching.md" redis]
  = List.length (md_files (scan_order redis_store)).
Proof.
  apply (rebuildIndex_exact Codec.matter ids_text stamp_date "2026-02-12T09:30:00Z"
           redis_store
           (mkIndex 1 "2026-02-12T09:30:00Z"
              [IndexBuilder.entry_of active "use-redis-for-caching.md" redis])
           (set_index redis_store "dec_20260212_test02")).
  reflexivity.
Defined.

Lemma create_writes_one_file_witness :
  sample = sample
  /\ readFile (snd (DecisionStore.create Codec.matter Codec.stringify stamp_time ids_text
                      "2026-02-12T09:30:00Z" sample redis_store))
       active "use-postgresql-for-persistence.md"
     = Some (Parser.serializeDecision Codec.stringify sample).
Proof.
  apply (proj1 (create_writes_one_file Codec.matter Codec.stringify stamp_time ids_text
                  "2026-02-12T09:30:00Z" sample redis_store) sample).
  reflexivity.
Defined.

Lemma get_not_found_iff_witness :
  DecisionStore.get Codec.matter redis_store "dec_nonexistent" = Return None.
Proof.
  apply get_not_found_iff. intros name text [[= <- <-]|[]] _.
  exists redis. split; [reflexivity|discriminate].
Defined.

Lemma create_same_slug_overwrites_witness :
  DecisionStore.get Codec.matter
    (snd (DecisionStore.create Codec.matter Codec.stringify stamp_time ids_text "later"
            sample_again
            (snd (DecisionStore.create Codec.matter Codec.stringify stamp_time ids_text
                    "2026-02-12T09:30:00Z" sample fresh))))
    (id sample)
  = Return None.
Proof.
  apply (create_same_slug_overwrites Codec.matter Codec.stringify stamp_time ids_text
           "2026-02-12T09:30:00Z" "later" sample sample_again fresh);
    try reflexivity.
  - discriminate.
  - intros name text [].
Defined.

Lemma short_summary_same_slug_witness :
  slugifyForDisplay "Use PostgreSQL for persistence"
  = slugify "Use PostgreSQL for persistence".
Proof. apply (proj2 (short_summary_same_slug _)). vm_compute. lia. Defined.

Lemma parsed_sections_trimmed_witness : trim "Indented note." = "Indented note.".
Proof.
  apply (proj1 (proj1 (parsed_sections_trimmed Codec.matter
                         (Parser.serializeDecision Codec.stringify indented))
                  (with_context sample (Some "Indented note.")) eq_refl)).
  reflexivity.
Defined.

Lemma absent_heading_unset_witness :
  exists d,
    Parser.parseDecision Codec.matter (Parser.serializeDecision Codec.stringify redis)
    = Return d
    /\ (includes nl "## Context" = false -> context d = None)
    /\ (includes nl "## Consequences" = false -> consequences d = None).
Proof.
  apply (absent_heading_unset Codec.matter _ (frontmatter_of redis) nl). reflexivity.
Defined.

Lemma sections_in_either_order_witness :
  Parser.parseDecision Codec.matter swapped_text = Return sample.
Proof.
  apply (sections_in_either_order Codec.matter swapped_text (frontmatter_of sample)
           "Evaluating database options for the backend."
           "All persistence goes through PostgreSQL.");
    try reflexivity; repeat split; discriminate.
Defined.

Lemma get_decision_not_found_witness :
  Tools.get_decision Codec.matter ids_text "2026-02-12T09:30:00Z" "dec_nonexistent" no_tree
  = (Return "Decision not found: dec_nonexistent",
     DecisionStore.init ids_text "2026-02-12T09:30:00Z" no_tree).
Proof.
  apply (get_decision_not_found Codec.matter ids_text). intros name text [].
Defined.

Lemma record_then_get_decision_witness :
  exists fs',
    Tools.record_decision Codec.matter Codec.stringify stamp_time ids_text
      "2026-02-12T09:29:59Z" "2026-02-12T09:30:00.000Z" "2026-02-12T09:30:01Z" "abc123"
      tailwind_args no_tree
    = (Return ("Decision recorded: **Use Tailwind CSS**" ++ nl
               ++ "ID: dec_20260212_abc123" ++ nl
               ++ "File: .decisions/active/use-tailwind-css.md"), fs')
    /\ Tools.get_decision Codec.matter ids_text "later" "dec_20260212_abc123" fs'
       = (Return (Tools.render_decision
                    (Tools.decision_of "2026-02-12T09:30:00.000Z" "abc123" tailwind_args)),
          fs').
Proof.
  apply (record_then_get_decision Codec.matter Codec.stringify stamp_time ids_text).
  - reflexivity.
  - intros name text [].
Defined.



Lemma relative_age_edges_witness :
  Server.getRelativeTime stamp_time 20260212093030 "2026-02-12T09:30:00Z" = "just now".
Proof.
  apply (proj1 (relative_age_edges stamp_time 20260212093030 "2026-02-12T09:30:00Z")).
  reflexivity.
Defined.

(** ** Recording from the command line *)

(** X23.  [record], then [get]: when the decision built from the options
    reads back from its serialization and the files of the store parse to
    other ids, [record] prints the summary and the new id, and the store
    then returns the decision under that id. *)
Theorem cli_record_then_get
    (matter : string -> result (DecisionFrontmatter * string))
    (matter_stringify : string -> DecisionFrontmatter -> string)
    (getTime : string -> Z) (JSON_stringify : DecisionIndex -> string)
    (t0 iso t1 short : string) (opts : Cli.RecordOptions) (fs : FS) :
  let d := Cli.decision_of iso short opts in
  Parser.parseDecision matter (Parser.serializeDecision matter_stringify d) = Return d ->
  other_ids matter (id d) (scan_order fs) ->
  fst (Cli.record matter matter_stringify getTime JSON_stringify t0 iso t1 short opts fs)
  = Return ("Decision recorded: " ++ Cli.o_summary opts ++ nl
            ++ "ID: " ++ new_id iso short ++ nl)
  /\ DecisionStore.get matter
       (snd (Cli.record matter matter_stringify getTime JSON_stringify
               t0 iso t1 short opts fs))
       (new_id iso short)
     = Return (Some d).
Proof.
  intros d Hp Ho. unfold Cli.record. fold d.
  destruct (create_active_found matter matter_stringify getTime JSON_stringify
              t1 d (DecisionStore.init JSON_stringify t0 fs) eq_refl Hp)
    as (text & E & G).
  { now rewrite scan_order_init. }
  rewrite E in G |- *. cbn [fst snd] in G |- *. split; [reflexivity|exact G].
Qed.

Lemma cli_record_then_get_witness :
  DecisionStore.get Codec.matter
    (snd (Cli.record Codec.matter Codec.stringify stamp_time ids_text
            "2026-02-12T09:29:59Z" "2026-02-12T09:30:00.000Z" "2026-02-12T09:30:01Z"
            "abc123" postgres_options redis_store))
    "dec_20260212_abc123"
  = Return (Some (Cli.decision_of "2026-02-12T09:30:00.000Z" "abc123" postgres_options)).
Proof.
  apply (cli_record_then_get Codec.matter Codec.stringify stamp_time ids_text).
  - reflexivity.
  - intros name text [[= <- <-]|[]] _. exists redis. split; [reflexivity|discriminate].
Defined.
